(** * Wholesale registration proxy: the upsert-and-link workflow

    A shallow embedding of the [action] handler of the app-proxy route
    (the revision with the company resolver, tag merging and role
    assignment, and the earlier revision kept in
    [app/routes/apps.proxy.jsx]), and the properties of the
    reconciliation workflow stated over it.

    The handler is one asynchronous function that issues a sequence of
    Admin GraphQL calls.  It is modelled in a small monad that threads
    the remote directory, records every call with its reply, and carries
    the three ways a JavaScript statement can complete: normally, by
    [throw], or by [return].

    The properties are stated for every client and for every
    implementation of the string built-ins [toLowerCase] and [trim]; the
    scenarios at the end run the handler on a scripted client, on ASCII
    text. *)

From Stdlib Require Import String Ascii List Bool Arith Lia.
Import ListNotations.
Open Scope string_scope.
Open Scope list_scope.

(** ** JavaScript strings

    A string is the sequence of its code units (for text outside ASCII,
    the bytes of its encoding); equality, concatenation and [includes]
    are those of the sequence.  The two built-ins whose result depends on
    the Unicode tables, [toLowerCase] and [trim], are kept abstract: the
    properties below hold for every implementation of them.  All that is
    used of them is that trimming the empty string leaves it empty. *)

Class JsString := {
  toLowerCase : string -> string;
  trim : string -> string;
  trim_empty : trim EmptyString = EmptyString
}.

(** On ASCII text the two built-ins are these: [toLowerCase] maps the
    letters A-Z, and [trim] removes the white space of ASCII (tab, line
    feed, vertical tab, form feed, carriage return, space) at both ends.
    The scenarios at the end of the file are written in ASCII and run
    with them. *)
Module AsciiText.

Definition lower_ascii (c : ascii) : ascii :=
  let n := nat_of_ascii c in
  if ((65 <=? n) && (n <=? 90))%nat then ascii_of_nat (n + 32) else c.

Fixpoint toLowerCase (s : string) : string :=
  match s with
  | EmptyString => EmptyString
  | String c r => String (lower_ascii c) (toLowerCase r)
  end.

Definition isWhiteSpace (c : ascii) : bool :=
  let n := nat_of_ascii c in
  (((9 <=? n) && (n <=? 13)) || (n =? 32))%nat.

Fixpoint trimStart (s : string) : string :=
  match s with
  | EmptyString => EmptyString
  | String c r => if isWhiteSpace c then trimStart r else s
  end.

Fixpoint trimEnd (s : string) : string :=
  match s with
  | EmptyString => EmptyString
  | String c r =>
      match trimEnd r with
      | EmptyString => if isWhiteSpace c then EmptyString else String c EmptyString
      | r' => String c r'
      end
  end.

Definition trim (s : string) : string := trimEnd (trimStart s).

End AsciiText.

(** [s.includes(sub)] *)
Fixpoint includes (s sub : string) : bool :=
  if String.prefix sub s then true
  else match s with
       | EmptyString => false
       | String _ r => includes r sub
       end.

(** [s.replace(pat, rep)] with a string pattern: the first occurrence only. *)
Fixpoint replace (s pat rep : string) : string :=
  if String.prefix pat s
  then rep ++ substring (String.length pat) (String.length s - String.length pat) s
  else match s with
       | EmptyString => EmptyString
       | String c r => String c (replace r pat rep)
       end.

(** The double-quote character of the query template [email:"..."]. *)
Definition dquote : string := String (ascii_of_nat 34) EmptyString.

(** ** JavaScript truthiness

    A form value or an id is [null]/[undefined] ([None]) or a string;
    the empty string is falsy. *)

Definition nonEmpty (s : string) : bool :=
  match s with EmptyString => false | _ => true end.

Definition truthy (v : option string) : bool :=
  match v with Some s => nonEmpty s | None => false end.

(** A variable that holds [undefined], [null] or a value.  What a reply
    yields through optional chaining is an [option], [None] being
    [undefined]; a variable initialised with [null] and later assigned
    such a value holds one of the three. *)
Inductive Nullable (A : Type) :=
| Undefined
| Null
| Value (a : A).
Arguments Undefined {A}.
Arguments Null {A}.
Arguments Value {A} a.

(** The assignment [x = a?.b?.c]. *)
Definition assigned {A} (v : option A) : Nullable A :=
  match v with Some a => Value a | None => Undefined end.

(** [if (x)] on such a variable holding a string. *)
Definition isTruthy (v : Nullable string) : bool :=
  match v with Value s => nonEmpty s | _ => false end.

(** [v || d] on an optional string. *)
Definition orElse (v : option string) (d : string) : string :=
  match v with
  | Some s => if nonEmpty s then s else d
  | None => d
  end.

(** [v && v.trim()] used as a condition. *)
Definition hasText {js : JsString} (v : option string) : bool :=
  match v with Some s => nonEmpty s && nonEmpty (trim s) | None => false end.

(** [v?.trim() || ""] *)
Definition trimOrEmpty {js : JsString} (v : option string) : string :=
  match v with Some s => trim s | None => EmptyString end.

Example includes_ex : includes "Senior Buyer" "Buy" = true /\ includes "abc" "cb" = false.
Proof. split; reflexivity. Qed.

Example replace_ex : replace "acme.myshopify.com" ".myshopify.com" "" = "acme".
Proof. reflexivity. Qed.

(** ** The submission

    [formData.get(name)] yields the first value stored under [name], or
    [null] when the field is absent. *)

Definition FormData := list (string * string).

Fixpoint get (formData : FormData) (name : string) : option string :=
  match formData with
  | [] => None
  | (k, v) :: rest => if String.eqb k name then Some v else get rest name
  end.

(** ** Remote entities, as the selection sets of the queries return them *)

Definition ID := string.

(** [node { id email firstName lastName phone tags }]; the directory
    allows a customer without an email. *)
Record Customer := {
  cu_id : ID;
  cu_email : option string;
  cu_firstName : option string;
  cu_lastName : option string;
  cu_phone : option string;
  cu_tags : option (list string)
}.

(** [node { id namespace key value type }] *)
Record Metafield := {
  mf_id : ID;
  mf_namespace : string;
  mf_key : string;
  mf_value : string;
  mf_type : string
}.

(** [node { id name metafields(first: 10) { edges { node ... } } }] *)
Record Company := {
  co_id : ID;
  co_name : string;
  co_metafields : option (list Metafield)
}.

Record CompanyLocation := { loc_id : ID; loc_name : string }.

Record Role := { role_id : ID; role_name : string }.

Record UserError := { ue_field : list string; ue_message : string }.

Record GraphQLError := { ge_message : string }.

(** ** Variables of the mutations *)

(** [CustomerInput]: a key that the source leaves out of the object is
    [None]; [firstName] and [lastName] are always present and carry the
    form value, which may be [null]. *)
Record CustomerInput := {
  ci_id : option ID;
  ci_firstName : option string;
  ci_lastName : option string;
  ci_email : option (option string);
  ci_tags : option (list string);
  ci_phone : option string
}.

Record CompanyContactInput := {
  cc_email : option string;
  cc_firstName : option string;
  cc_lastName : option string
}.

Record CompanyCreateInput := {
  cci_name : option string;
  cci_externalId : string;
  cci_note : string;
  cci_companyContact : option CompanyContactInput
}.

Record MetafieldsSetInput := {
  ms_ownerId : ID;
  ms_namespace : string;
  ms_key : string;
  ms_value : string;
  ms_type : string
}.

Record CompanyAddressInput := {
  ad_address1 : string;
  ad_city : string;
  ad_countryCode : string;
  ad_zoneCode : string;
  ad_zip : string;
  ad_address2 : option string
}.

(** ** The GraphQL operations the handler sends, named as in the source *)

Inductive Request :=
| GetCustomerByEmail (query : string)            (* customers(first: 5, query) *)
| UpdateCustomer (input : CustomerInput)
| GetCompaniesByEmailMetafield                   (* companies(first: 50) *)
| CreateCompany (input : CompanyCreateInput)
| SetCompanyEmailMetafield (metafields : list MetafieldsSetInput)
| GetCompanyLocations (companyId : ID)           (* locations(first: 1) *)
| UpdateCompanyLocationName (companyLocationId : ID) (name : string)
| CompanyLocationAssignAddress (locationId : ID) (address : CompanyAddressInput)
                               (addressTypes : list string)
| SetCompanyLocationTaxId (companyLocationId : ID) (taxRegistrationId : string)
| CreateCustomer (input : CustomerInput)
| SearchCustomerByEmail (email : string)         (* customers(first: 10, query) *)
| SearchCustomerByEmailPrefix (query : string)   (* customers(first: 10, query) *)
| GetAllRecentCustomers  (* customers(first: 50, sortKey: CREATED_AT, reverse: true) *)
| AssignCustomerAsContact (companyId customerId : ID)
| AssignMainContact (companyId companyContactId : ID)
| GetLocationRoles (companyId : ID)              (* locations(first: 1) *)
| GetCompanyRoles (companyId : ID)               (* contactRoles(first: 25) *)
| AssignRole (contactId roleId locationId : ID)
| AssignNewCustomerAsContact (companyId customerId : ID).

(** The operations declared [mutation] in the source. *)
Definition isMutation (r : Request) : bool :=
  match r with
  | UpdateCustomer _ | CreateCompany _ | SetCompanyEmailMetafield _
  | UpdateCompanyLocationName _ _ | CompanyLocationAssignAddress _ _ _
  | SetCompanyLocationTaxId _ _ | CreateCustomer _
  | AssignCustomerAsContact _ _ | AssignMainContact _ _
  | AssignRole _ _ _ | AssignNewCustomerAsContact _ _ => true
  | _ => false
  end.

(** ** Parsed replies

    Each record keeps what the handler reads from the reply.  A field
    reached through optional chaining ([a?.b?.c]) is an [option] that is
    [None] when any link of the chain is missing. *)

(** [json.data?.customers?.edges], each edge with its node *)
Record CustomersJson := { customers_edges : option (list Customer) }.

(** [json.data?.customerUpdate?.userErrors] *)
Record CustomerUpdateJson := { cuj_userErrors : option (list UserError) }.

(** [json.data?.companies?.edges] *)
Record CompaniesJson := { companies_edges : option (list Company) }.

(** [json.errors], [json.data?.companyCreate?.userErrors],
    [json.data?.companyCreate?.company?.id] *)
Record CompanyCreateJson := {
  ccj_errors : option (list GraphQLError);
  ccj_userErrors : option (list UserError);
  ccj_company_id : option ID
}.

(** [json.errors], [json.data?.customerCreate?.userErrors],
    [json.data?.customerCreate?.customer?.id] *)
Record CustomerCreateJson := {
  crj_errors : option (list GraphQLError);
  crj_userErrors : option (list UserError);
  crj_customer_id : option ID
}.

(** [json.data?.company?.locations?.edges] *)
Record LocationsJson := { locations_edges : option (list CompanyLocation) }.

(** [json.data?.company?.defaultRole], [json.data?.company?.contactRoles?.nodes] *)
Record RolesJson := {
  rj_defaultRole : option Role;
  rj_contactRoles : option (list Role)
}.

(** [json.data?.companyAssignCustomerAsContact?.companyContact?.id] and
    [...?.userErrors] *)
Record AssignContactJson := {
  acj_companyContact_id : option ID;
  acj_userErrors : option (list UserError)
}.

(** Replies the handler only inspects to choose what it logs:
    [json.errors] and the payload's [userErrors]. *)
Record PayloadJson := {
  pj_errors : option (list GraphQLError);
  pj_userErrors : option (list UserError)
}.

Definition resp_of (r : Request) : Type :=
  match r with
  | GetCustomerByEmail _ | SearchCustomerByEmail _
  | SearchCustomerByEmailPrefix _ | GetAllRecentCustomers => CustomersJson
  | UpdateCustomer _ => CustomerUpdateJson
  | GetCompaniesByEmailMetafield => CompaniesJson
  | CreateCompany _ => CompanyCreateJson
  | CreateCustomer _ => CustomerCreateJson
  | GetCompanyLocations _ | GetLocationRoles _ => LocationsJson
  | GetCompanyRoles _ => RolesJson
  | AssignCustomerAsContact _ _ | AssignNewCustomerAsContact _ _ => AssignContactJson
  | SetCompanyEmailMetafield _ | UpdateCompanyLocationName _ _
  | CompanyLocationAssignAddress _ _ _ | SetCompanyLocationTaxId _ _
  | AssignMainContact _ _ | AssignRole _ _ _ => PayloadJson
  end.

(** The reply of any operation, for the call log. *)
Inductive Response :=
| RCustomers (j : CustomersJson)
| RCustomerUpdate (j : CustomerUpdateJson)
| RCompanies (j : CompaniesJson)
| RCompanyCreate (j : CompanyCreateJson)
| RCustomerCreate (j : CustomerCreateJson)
| RLocations (j : LocationsJson)
| RRoles (j : RolesJson)
| RAssignContact (j : AssignContactJson)
| RPayload (j : PayloadJson).

Definition response (r : Request) : resp_of r -> Response :=
  match r with
  | GetCustomerByEmail _ | SearchCustomerByEmail _
  | SearchCustomerByEmailPrefix _ | GetAllRecentCustomers => RCustomers
  | UpdateCustomer _ => RCustomerUpdate
  | GetCompaniesByEmailMetafield => RCompanies
  | CreateCompany _ => RCompanyCreate
  | CreateCustomer _ => RCustomerCreate
  | GetCompanyLocations _ | GetLocationRoles _ => RLocations
  | GetCompanyRoles _ => RRoles
  | AssignCustomerAsContact _ _ | AssignNewCustomerAsContact _ _ => RAssignContact
  | SetCompanyEmailMetafield _ | UpdateCompanyLocationName _ _
  | CompanyLocationAssignAddress _ _ _ | SetCompanyLocationTaxId _ _
  | AssignMainContact _ _ | AssignRole _ _ _ => RPayload
  end.

(** [await admin.graphql(...)] followed by [await response.json()]
    either yields the parsed body or throws. *)
Inductive Reply (A : Type) :=
| Threw (message : string)
| Json (body : A).
Arguments Threw {A} message.
Arguments Json {A} body.

Definition mapReply {A B} (f : A -> B) (r : Reply A) : Reply B :=
  match r with Threw m => Threw m | Json a => Json (f a) end.

(** One entry of the call log. *)
Definition Event : Type := Request * Reply Response.

(** ** What the handler answers *)

(** The object given to [json(...)] on the normal path.  [companyId] is
    declared without a value and only assigned ids read from replies:
    [None] is [undefined].  [customerId] starts as [null] and may be
    assigned an id read through optional chaining.  [customerError] is
    [null] ([None]) or a message. *)
Record Result := {
  success : bool;
  companyId : option ID;
  customerId : Nullable ID;
  message : string;
  customerError : option string
}.

(** The body that [json(...)] sends, as [JSON.stringify] renders the
    object: a key whose value is [undefined] is left out. *)
Inductive JsonValue :=
| JsonNull
| JsonBool (b : bool)
| JsonString (s : string).

Definition responseBody (r : Result) : list (string * JsonValue) :=
  ([("success", JsonBool (success r))]
   ++ match companyId r with
      | Some id => [("companyId", JsonString id)]
      | None => []
      end
   ++ match customerId r with
      | Undefined => []
      | Null => [("customerId", JsonNull)]
      | Value id => [("customerId", JsonString id)]
      end
   ++ [("message", JsonString (message r));
       ("customerError", match customerError r with
                         | Some e => JsonString e
                         | None => JsonNull
                         end)])%list.

Inductive Details :=
| GraphQLErrors (errors : list GraphQLError)
| UserErrors (errors : list UserError)
| ErrorMessage (message : string).

Inductive HttpResponse :=
| JsonError (error : string) (details : option Details) (status : nat)
| JsonResult (result : Result).

(** ** The incoming request

    What the handler reads besides the form: the shop reported by
    [authenticate.public.appProxy] ([None] when it throws or reports
    none), the [shop] parameter of the URL, the host name of the
    [referer] header ([None] without header, [Threw] when [new URL]
    rejects it) and the session store. *)

Record Session := { accessToken : string }.

Record HttpRequest := {
  req_formData : FormData;
  req_proxyShop : option string;
  req_urlShop : option string;
  req_refererHost : option (Reply string);
  req_loadSession : string -> option Session
}.

(** ** How a block of statements completes *)

Inductive Completion (A : Type) :=
| Normal (value : A)
| Throw (message : string)
| Return (response : HttpResponse).
Arguments Normal {A} value.
Arguments Throw {A} message.
Arguments Return {A} response.

(** [TypeError] raised by a method call on [null]. *)
Definition typeError (method : string) : string :=
  "Cannot read properties of null (reading '" ++ method ++ "')".

(** ** Pure parts of the handler *)

Section PureParts.

Context {js : JsString}.

(** [edges?.[0]?.node] *)
Definition firstNode {A} (edges : option (list A)) : option A :=
  match edges with
  | Some (n :: _) => Some n
  | _ => None
  end.

(** [!json.data?.customers?.edges?.length] *)
Definition noEdges {A} (edges : option (list A)) : bool :=
  match edges with
  | Some (_ :: _) => false
  | _ => true
  end.

(** [payload?.userErrors?.length > 0] *)
Definition hasUserErrors (errs : option (list UserError)) : bool :=
  match errs with
  | Some (_ :: _) => true
  | _ => false
  end.

(** [userEmail.toLowerCase().trim()] *)
Definition normalizedEmail (userEmail : string) : string :=
  trim (toLowerCase userEmail).

(** The variable of [GetCustomerByEmail]. *)
Definition emailQuery (userEmail : string) : string :=
  "email:" ++ dquote ++ normalizedEmail userEmail ++ dquote.

(** Tag merging: [existingTags = customer.tags || []], then
    [if (!existingTags.includes("wholesale")) existingTags.push("wholesale")]. *)
Definition wholesaleTag : string := "wholesale".

Definition mergeTags (tags : option (list string)) : list string :=
  let existingTags := match tags with Some t => t | None => [] end in
  if existsb (String.eqb wholesaleTag) existingTags
  then existingTags
  else (existingTags ++ [wholesaleTag])%list.

(** [if (formPhone && formPhone.trim()) input.phone = formPhone.trim()] *)
Definition phoneField (formPhone : option string) : option string :=
  match formPhone with
  | Some p => if nonEmpty p && nonEmpty (trim p) then Some (trim p) else None
  | None => None
  end.

(** The input of [UpdateCustomer] for the customer the identity resolver
    returned. *)
Definition customerInput (formData : FormData) (existingCustomer : Customer)
  : CustomerInput :=
  {| ci_id := Some (cu_id existingCustomer);
     ci_firstName := get formData "firstName";
     ci_lastName := get formData "lastName";
     ci_email := None;
     ci_tags := Some (mergeTags (cu_tags existingCustomer));
     ci_phone := phoneField (get formData "phone") |}.

(** The input of [UpdateCustomer] in the email-conflict fallback. *)
Definition fallbackCustomerInput (formData : FormData) (foundCustomer : Customer)
  : CustomerInput :=
  {| ci_id := Some (cu_id foundCustomer);
     ci_firstName := get formData "firstName";
     ci_lastName := get formData "lastName";
     ci_email := None;
     ci_tags := Some (mergeTags (cu_tags foundCustomer));
     ci_phone := phoneField (get formData "phone") |}.

(** The input of [CreateCustomer]. *)
Definition newCustomerInput (formData : FormData) : CustomerInput :=
  {| ci_id := None;
     ci_firstName := get formData "firstName";
     ci_lastName := get formData "lastName";
     ci_email := Some (get formData "userEmail");
     ci_tags := Some [wholesaleTag];
     ci_phone := phoneField (get formData "phone") |}.

(** Company resolver: the metafield test of the [find] callback. *)
Definition isEmailMetafield (companyEmail : string) (m : Metafield) : bool :=
  String.eqb (mf_namespace m) "custom"
  && String.eqb (mf_key m) "companyEmail"
  && String.eqb (toLowerCase (mf_value m)) (trim (toLowerCase companyEmail)).

(** [company.metafields?.edges?.find(...)] *)
Definition emailMetafield (companyEmail : string) (company : Company)
  : option Metafield :=
  match co_metafields company with
  | Some edges => find (isEmailMetafield companyEmail) edges
  | None => None
  end.

(** The [for ... of companies] loop with its [break]: the first company
    that has a matching metafield. *)
Definition findExistingCompany (companyEmail : string) (companies : list Company)
  : option Company :=
  find (fun company =>
          match emailMetafield companyEmail company with
          | Some _ => true
          | None => false
          end) companies.

(** The input of [CreateCompany]; [stamp] is the rendering of [Date.now()]. *)
Definition companyInput (formData : FormData) (stamp : string)
  (existingCustomer : option Customer) : CompanyCreateInput :=
  {| cci_name := get formData "companyName";
     cci_externalId := "ext-" ++ stamp;
     cci_note := "Created from Wholesale Registration form";
     cci_companyContact :=
       match existingCustomer with
       | Some _ => None
       | None => Some {| cc_email := get formData "userEmail";
                         cc_firstName := get formData "firstName";
                         cc_lastName := get formData "lastName" |}
       end |}.

(** The variable of [SetCompanyEmailMetafield]. *)
Definition companyEmailMetafield (companyId : ID) (companyEmail : string)
  : list MetafieldsSetInput :=
  [ {| ms_ownerId := companyId;
       ms_namespace := "custom";
       ms_key := "companyEmail";
       ms_value := trim companyEmail;
       ms_type := "single_line_text_field" |} ].

(** [addressInput.address] *)
Definition addressInput (formData : FormData) (address1 : string)
  : CompanyAddressInput :=
  {| ad_address1 := trim address1;
     ad_city := trimOrEmpty (get formData "city");
     ad_countryCode := trim (orElse (get formData "country") "IN");
     ad_zoneCode := trim (orElse (get formData "state") "");
     ad_zip := trimOrEmpty (get formData "zip_code");
     ad_address2 :=
       match get formData "address2" with
       | Some a2 => if nonEmpty a2 && nonEmpty (trim a2) then Some (trim a2) else None
       | None => None
       end |}.

(** The test applied to each GraphQL error of the tax reply. *)
Definition mutationNotFound (error : GraphQLError) : bool :=
  includes (ge_message error) "companyLocationTaxSettingsUpdate"
  && includes (ge_message error) "doesn't exist on type 'Mutation'".

(** [edge => edge.node.email.toLowerCase() === userEmail.toLowerCase().trim()];
    [None] is the [TypeError] of calling [toLowerCase] on a [null] email. *)
Definition emailMatches (userEmail : string) (c : Customer) : option bool :=
  match cu_email c with
  | Some e => Some (String.eqb (toLowerCase e) (normalizedEmail userEmail))
  | None => None
  end.

(** [edges.filter(callback)]: every edge is visited. *)
Fixpoint filterEdges (userEmail : string) (edges : list Customer)
  : Completion (list Customer) :=
  match edges with
  | [] => Normal []
  | c :: rest =>
      match emailMatches userEmail c with
      | None => Throw (typeError "toLowerCase")
      | Some b =>
          match filterEdges userEmail rest with
          | Normal kept => Normal (if b then c :: kept else kept)
          | other => other
          end
      end
  end.

(** [edges.find(callback)]: stops at the first match. *)
Fixpoint findEdge (userEmail : string) (edges : list Customer)
  : Completion (option Customer) :=
  match edges with
  | [] => Normal None
  | c :: rest =>
      match emailMatches userEmail c with
      | None => Throw (typeError "toLowerCase")
      | Some true => Normal (Some c)
      | Some false => findEdge userEmail rest
      end
  end.

(** Role choice: the default role, else a role named like a buyer, else
    one named like an admin, else the first role. *)
Definition isBuyer (role : Role) : bool := includes (toLowerCase (role_name role)) "buyer".
Definition isAdmin (role : Role) : bool := includes (toLowerCase (role_name role)) "admin".

Definition roleToAssign (rolesData : RolesJson) : option Role :=
  match rj_defaultRole rolesData with
  | Some defaultRole => Some defaultRole
  | None =>
      match rj_contactRoles rolesData with
      | Some ((first :: _) as roles) =>
          match find isBuyer roles with
          | Some buyerRole => Some buyerRole
          | None =>
              match find isAdmin roles with
              | Some adminRole => Some adminRole
              | None => Some first
              end
          end
      | _ => None
      end
  end.

(** Result aggregation: the four-way [if] and the object given to [json]. *)
Definition aggregate (companyId : option ID) (customerId : Nullable ID)
  (customerError : option string)
  : Result :=
  if truthy companyId && isTruthy customerId then
    {| success := true; companyId := companyId; customerId := customerId;
       message := "Company and customer created successfully!";
       customerError := customerError |}
  else if truthy companyId && truthy customerError then
    {| success := true; companyId := companyId; customerId := customerId;
       message := "Company created successfully! Note: " ++ orElse customerError "";
       customerError := customerError |}
  else if truthy companyId then
    {| success := true; companyId := companyId; customerId := customerId;
       message := "Company created successfully!";
       customerError := customerError |}
  else
    {| success := false; companyId := companyId; customerId := customerId;
       message := "Failed to create company.";
       customerError := customerError |}.

End PureParts.

(** ** The workflow monad

    [World] is the state of the remote directory and [graphql] the admin
    client: a call consumes the current state and answers with a reply
    and the next state.  [stamp] renders [Date.now()]. *)

Record Run (World A : Type) := {
  completion : Completion A;
  world : World;
  log : list Event
}.
Arguments completion {World A} r.
Arguments world {World A} r.
Arguments log {World A} r.

Definition Client (World : Type) : Type :=
  forall r : Request, World -> Reply (resp_of r) * World.

Definition M (World A : Type) : Type := World -> Run World A.

Definition ret {World A} (a : A) : M World A :=
  fun w => {| completion := Normal a; world := w; log := [] |}.

Definition throw {World A} (message : string) : M World A :=
  fun w => {| completion := Throw message; world := w; log := [] |}.

Definition returnJson {World A} (response : HttpResponse) : M World A :=
  fun w => {| completion := Return response; world := w; log := [] |}.

Definition bind {World A B} (m : M World A) (k : A -> M World B) : M World B :=
  fun w =>
    let r := m w in
    match completion r with
    | Normal a =>
        let r' := k a (world r) in
        {| completion := completion r'; world := world r';
           log := (log r ++ log r')%list |}
    | Throw e => {| completion := Throw e; world := world r; log := log r |}
    | Return h => {| completion := Return h; world := world r; log := log r |}
    end.

Notation "x <- m ;; k" := (bind m (fun x => k))
  (at level 61, m at next level, right associativity).
Notation "m ;;; k" := (bind m (fun _ => k))
  (at level 61, right associativity).

(** [await admin.graphql(op, { variables })] and [await response.json()]. *)
Definition call {World} (graphql : Client World) (r : Request) : M World (resp_of r) :=
  fun w =>
    let '(reply, w') := graphql r w in
    {| completion := match reply with
                     | Threw e => Throw e
                     | Json body => Normal body
                     end;
       world := w';
       log := [(r, mapReply (response r) reply)] |}.

(** [try { block } catch (e) { console.error(...) }] *)
Definition tryCatch {World} (block : M World unit) : M World unit :=
  fun w =>
    let r := block w in
    match completion r with
    | Throw _ => {| completion := Normal tt; world := world r; log := log r |}
    | _ => r
    end.

(** A pure computation that may throw. *)
Definition lift {World A} (c : Completion A) : M World A :=
  fun w => {| completion := c; world := w; log := [] |}.

Definition when {World} (b : bool) (m : M World unit) : M World unit :=
  if b then m else ret tt.

(** The outer [try]/[catch]: what the route answers. *)
Definition respond (c : Completion HttpResponse) : HttpResponse :=
  match c with
  | Normal response => response
  | Return response => response
  | Throw e => JsonError "Internal server error" (Some (ErrorMessage e)) 500
  end.

Definition answer {World} (r : Run World HttpResponse) : HttpResponse :=
  respond (completion r).

(** Shop and session resolution, up to the admin client.  It is the same
    in every revision of the route. *)
Definition resolveShop {World} (request : HttpRequest) : M World (option string) :=
  let shop := req_proxyShop request in
  let shop :=
    if truthy shop then shop
    else if truthy (req_urlShop request) then req_urlShop request
         else get (req_formData request) "shop" in
  if truthy shop then ret shop
  else
    match req_refererHost request with
    | Some (Threw e) => throw e
    | Some (Json hostname) =>
        if includes hostname ".myshopify.com"
        then ret (Some (replace hostname ".myshopify.com" ""))
        else ret shop
    | None => ret shop
    end.

Definition loadAdmin {World} (request : HttpRequest) : M World unit :=
  shop <- resolveShop request ;;
  match shop with
  | Some s =>
      if nonEmpty s then
        match req_loadSession request ("offline_" ++ s) with
        | Some _ => ret tt
        | None =>
            match req_loadSession request ("offline_" ++ s ++ ".myshopify.com") with
            | Some _ => ret tt
            | None => returnJson (JsonError "App not installed for this shop" None 401)
            end
        end
      else returnJson (JsonError "Shop parameter missing" None 400)
  | None => returnJson (JsonError "Shop parameter missing" None 400)
  end.

Section Workflow.

Context {js : JsString}.
Variable World : Type.
Variable graphql : Client World.
Variable stamp : string.

(** ** The handler, newest revision *)

(** Identity resolver: the first node of the email-filtered query. *)
Definition resolveIdentity (formData : FormData) : M World (option Customer) :=
  match get formData "userEmail" with
  | None => throw (typeError "toLowerCase")
  | Some userEmail =>
      customerCheckJson <- call graphql (GetCustomerByEmail (emailQuery userEmail)) ;;
      ret (firstNode (customers_edges customerCheckJson))
  end.

(** [if (existingCustomer) { ... customerUpdate ... }] *)
Definition updateExistingCustomer (formData : FormData)
  (existingCustomer : option Customer) : M World unit :=
  match existingCustomer with
  | Some c =>
      _ <- call graphql (UpdateCustomer (customerInput formData c)) ;;
      ret tt
  | None => ret tt
  end.

(** Company resolver. *)
Definition resolveCompany (formData : FormData) : M World (option Company) :=
  match get formData "companyEmail" with
  | Some companyEmail =>
      if nonEmpty companyEmail && nonEmpty (trim companyEmail) then
        companyCheckJson <- call graphql GetCompaniesByEmailMetafield ;;
        let companies :=
          match companies_edges companyCheckJson with
          | Some edges => edges
          | None => []
          end in
        ret (findExistingCompany companyEmail companies)
      else ret None
  | None => ret None
  end.

(** Create or reuse the company; the value is [companyId]. *)
Definition createOrReuseCompany (formData : FormData)
  (existingCustomer : option Customer) (existingCompany : option Company)
  : M World (option ID) :=
  match existingCompany with
  | Some company => ret (Some (co_id company))
  | None =>
      companyJson <- call graphql (CreateCompany (companyInput formData stamp existingCustomer)) ;;
      match ccj_errors companyJson with
      | Some errors =>
          returnJson (JsonError "GraphQL errors in company creation"
                                (Some (GraphQLErrors errors)) 400)
      | None =>
          match ccj_userErrors companyJson with
          | Some (e :: es) =>
              returnJson (JsonError "Failed to create company"
                                    (Some (UserErrors (e :: es))) 400)
          | _ => ret (ccj_company_id companyJson)
          end
      end
  end.

(** The company-email metafield, for a newly created company only. *)
Definition setCompanyEmailMetafield (formData : FormData)
  (existingCompany : option Company) (companyId : option ID) : M World unit :=
  match companyId, existingCompany with
  | Some id, None =>
      if nonEmpty id then
        match get formData "companyEmail" with
        | Some companyEmail =>
            if nonEmpty companyEmail && nonEmpty (trim companyEmail) then
              tryCatch (_ <- call graphql (SetCompanyEmailMetafield
                                     (companyEmailMetafield id companyEmail)) ;;
                        ret tt)
            else ret tt
        | None => ret tt
        end
      else ret tt
  | _, _ => ret tt
  end.

(** Tax id, inside its own [try]. *)
Definition setTaxId (formData : FormData) (locationId : ID) : M World unit :=
  match get formData "taxId" with
  | Some taxId =>
      if nonEmpty taxId && nonEmpty (trim taxId) then
        tryCatch (_ <- call graphql (SetCompanyLocationTaxId locationId (trim taxId)) ;;
                  ret tt)
      else ret tt
  | None => ret tt
  end.

(** Address assignment on the first location. *)
Definition assignAddress (formData : FormData) (companyId : option ID) : M World unit :=
  match companyId with
  | Some id =>
      if nonEmpty id then
        match get formData "address1" with
        | Some address1 =>
            if nonEmpty address1 && nonEmpty (trim address1) then
              tryCatch (
                companyLocationJson <- call graphql (GetCompanyLocations id) ;;
                match firstNode (locations_edges companyLocationJson) with
                | Some location =>
                    let locationId := loc_id location in
                    if nonEmpty locationId then
                      let locationNameFromForm :=
                        trim (orElse (get formData "location") "") in
                      when (nonEmpty locationNameFromForm)
                           (_ <- call graphql (UpdateCompanyLocationName locationId
                                         locationNameFromForm) ;;
                            ret tt) ;;;
                      _ <- call graphql (CompanyLocationAssignAddress locationId
                                   (addressInput formData address1) ["SHIPPING"]) ;;
                      setTaxId formData locationId
                    else ret tt
                | None => ret tt
                end)
            else ret tt
        | None => ret tt
        end
      else ret tt
  | None => ret tt
  end.

(** The three search strategies of the email-conflict fallback; the
    value is the [edges] of the final [fallbackSearchJson]. *)
Definition fallbackSearch (userEmail : string) : M World (option (list Customer)) :=
  json1 <- call graphql (SearchCustomerByEmail (trim userEmail)) ;;
  json2 <- (if noEdges (customers_edges json1)
            then call graphql (SearchCustomerByEmailPrefix ("email:" ++ trim userEmail))
            else ret json1) ;;
  if noEdges (customers_edges json2) then
    allCustomersJson <- call graphql GetAllRecentCustomers ;;
    matchingCustomers <-
      lift (match customers_edges allCustomersJson with
            | Some edges => filterEdges userEmail edges
            | None => Normal []
            end) ;;
    match matchingCustomers with
    | _ :: _ => ret (Some matchingCustomers)
    | [] => ret (customers_edges json2)
    end
  else ret (customers_edges json2).

(** The fallback after "Email has already been taken"; the value is
    [(customerId, customerError)]. *)
Definition updateFoundCustomer (formData : FormData) (userEmail errorMessage : string)
  : M World (Nullable ID * option string) :=
  edges <- fallbackSearch userEmail ;;
  foundCustomer <-
    lift (match edges with
          | Some es => findEdge userEmail es
          | None => Normal None
          end) ;;
  match foundCustomer with
  | Some found =>
      customerUpdateJson <- call graphql (UpdateCustomer (fallbackCustomerInput formData found)) ;;
      match cuj_userErrors customerUpdateJson with
      | Some (e :: _) => ret (Null, Some (ue_message e))
      | _ => ret (Value (cu_id found), None)
      end
  | None => ret (Null, Some errorMessage)
  end.

(** Customer creation or reuse; the value is [(customerId, customerError)]. *)
Definition createOrReuseCustomer (formData : FormData)
  (existingCustomer : option Customer) : M World (Nullable ID * option string) :=
  match existingCustomer with
  | Some c => ret (Value (cu_id c), None)
  | None =>
      customerJson <- call graphql (CreateCustomer (newCustomerInput formData)) ;;
      match crj_errors customerJson with
      | Some _ => ret (Null, Some "GraphQL errors in customer creation")
      | None =>
          match crj_userErrors customerJson with
          | Some (e :: _) =>
              let errorMessage := ue_message e in
              if includes errorMessage "Email has already been taken" then
                match get formData "userEmail" with
                | Some userEmail => updateFoundCustomer formData userEmail errorMessage
                | None => throw (typeError "trim")
                end
              else ret (Null, Some errorMessage)
          | _ => ret (assigned (crj_customer_id customerJson), None)
          end
      end
  end.

(** Role assignment for the contact, inside its [try]. *)
Definition assignLocationPermissions (companyId companyContactId : ID) : M World unit :=
  tryCatch (
    locationData <- call graphql (GetLocationRoles companyId) ;;
    match firstNode (locations_edges locationData) with
    | Some location =>
        rolesData <- call graphql (GetCompanyRoles companyId) ;;
        match roleToAssign rolesData with
        | Some role =>
            if nonEmpty (role_id role) then
              _ <- call graphql (AssignRole companyContactId (role_id role) (loc_id location)) ;;
              ret tt
            else ret tt
        | None => ret tt
        end
    | None => ret tt
    end).

(** [if (companyId && customerId) { ... }]: the three linking branches. *)
Definition linkCustomer (existingCustomer : option Customer)
  (existingCompany : option Company) (companyId : option ID)
  (customerId : Nullable ID) : M World unit :=
  match companyId, customerId with
  | Some company, Value customer =>
      if nonEmpty company && nonEmpty customer then
        match existingCustomer with
        | Some _ =>
            assignJson <- call graphql (AssignCustomerAsContact company customer) ;;
            match acj_companyContact_id assignJson with
            | Some companyContactId =>
                if nonEmpty companyContactId then
                  _ <- call graphql (AssignMainContact company companyContactId) ;;
                  assignLocationPermissions company companyContactId
                else ret tt
            | None => ret tt
            end
        | None =>
            match existingCompany with
            | Some _ =>
                _ <- call graphql (AssignNewCustomerAsContact company customer) ;;
                ret tt
            | None => ret tt
            end
        end
      else ret tt
  | _, _ => ret tt
  end.

(** The body of the handler after the admin client is available. *)
Definition workflow (formData : FormData) : M World HttpResponse :=
  existingCustomer <- resolveIdentity formData ;;
  updateExistingCustomer formData existingCustomer ;;;
  existingCompany <- resolveCompany formData ;;
  companyId <- createOrReuseCompany formData existingCustomer existingCompany ;;
  setCompanyEmailMetafield formData existingCompany companyId ;;;
  assignAddress formData companyId ;;;
  customer <- createOrReuseCustomer formData existingCustomer ;;
  linkCustomer existingCustomer existingCompany companyId (fst customer) ;;;
  ret (JsonResult (aggregate companyId (fst customer) (snd customer))).

Definition handler (request : HttpRequest) : M World HttpResponse :=
  loadAdmin request ;;;
  workflow (req_formData request).

(** [action({ request })]: the answer and the calls made, in order. *)
Definition action (request : HttpRequest) (w : World) : HttpResponse * list Event :=
  let r := handler request w in (answer r, log r).

End Workflow.

(** ** The handler, earlier revision ([app/routes/apps.proxy.jsx])

    The same route before the company resolver, the tag merging, the
    company-email metafield and the role assignment were added: the
    customers are queried without [tags], a company is always created,
    and linking stops after the main-contact mutation.  Shop resolution,
    address and tax assignment, the email-conflict search and the result
    aggregation are the same statements as above. *)

Module AppsProxy.

Definition customerInput {js : JsString} (formData : FormData) (existingCustomer : Customer)
  : CustomerInput :=
  {| ci_id := Some (cu_id existingCustomer);
     ci_firstName := get formData "firstName";
     ci_lastName := get formData "lastName";
     ci_email := None;
     ci_tags := None;
     ci_phone := phoneField (get formData "phone") |}.

Definition fallbackCustomerInput {js : JsString} (formData : FormData) (foundCustomer : Customer)
  : CustomerInput :=
  {| ci_id := Some (cu_id foundCustomer);
     ci_firstName := get formData "firstName";
     ci_lastName := get formData "lastName";
     ci_email := None;
     ci_tags := None;
     ci_phone := phoneField (get formData "phone") |}.

Definition newCustomerInput {js : JsString} (formData : FormData) : CustomerInput :=
  {| ci_id := None;
     ci_firstName := get formData "firstName";
     ci_lastName := get formData "lastName";
     ci_email := Some (get formData "userEmail");
     ci_tags := None;
     ci_phone := phoneField (get formData "phone") |}.

Section Workflow.

Context {js : JsString}.
Variable World : Type.
Variable graphql : Client World.
Variable stamp : string.

Definition updateExistingCustomer (formData : FormData)
  (existingCustomer : option Customer) : M World unit :=
  match existingCustomer with
  | Some c =>
      _ <- call graphql (UpdateCustomer (customerInput formData c)) ;;
      ret tt
  | None => ret tt
  end.

(** The company is created on every submission. *)
Definition createCompany (formData : FormData) (existingCustomer : option Customer)
  : M World (option ID) :=
  companyJson <- call graphql (CreateCompany (companyInput formData stamp existingCustomer)) ;;
  match ccj_errors companyJson with
  | Some errors =>
      returnJson (JsonError "GraphQL errors in company creation"
                            (Some (GraphQLErrors errors)) 400)
  | None =>
      match ccj_userErrors companyJson with
      | Some (e :: es) =>
          returnJson (JsonError "Failed to create company"
                                (Some (UserErrors (e :: es))) 400)
      | _ => ret (ccj_company_id companyJson)
      end
  end.

Definition updateFoundCustomer (formData : FormData) (userEmail errorMessage : string)
  : M World (Nullable ID * option string) :=
  edges <- fallbackSearch World graphql userEmail ;;
  foundCustomer <-
    lift (match edges with
          | Some es => findEdge userEmail es
          | None => Normal None
          end) ;;
  match foundCustomer with
  | Some found =>
      customerUpdateJson <- call graphql (UpdateCustomer (fallbackCustomerInput formData found)) ;;
      match cuj_userErrors customerUpdateJson with
      | Some (e :: _) => ret (Null, Some (ue_message e))
      | _ => ret (Value (cu_id found), None)
      end
  | None => ret (Null, Some errorMessage)
  end.

Definition createOrReuseCustomer (formData : FormData)
  (existingCustomer : option Customer) : M World (Nullable ID * option string) :=
  match existingCustomer with
  | Some c => ret (Value (cu_id c), None)
  | None =>
      customerJson <- call graphql (CreateCustomer (newCustomerInput formData)) ;;
      match crj_errors customerJson with
      | Some _ => ret (Null, Some "GraphQL errors in customer creation")
      | None =>
          match crj_userErrors customerJson with
          | Some (e :: _) =>
              let errorMessage := ue_message e in
              if includes errorMessage "Email has already been taken" then
                match get formData "userEmail" with
                | Some userEmail => updateFoundCustomer formData userEmail errorMessage
                | None => throw (typeError "trim")
                end
              else ret (Null, Some errorMessage)
          | _ => ret (assigned (crj_customer_id customerJson), None)
          end
      end
  end.

Definition linkCustomer (existingCustomer : option Customer)
  (companyId : option ID) (customerId : Nullable ID) : M World unit :=
  match companyId, customerId with
  | Some company, Value customer =>
      if nonEmpty company && nonEmpty customer then
        match existingCustomer with
        | Some _ =>
            assignJson <- call graphql (AssignCustomerAsContact company customer) ;;
            match acj_companyContact_id assignJson with
            | Some companyContactId =>
                if nonEmpty companyContactId then
                  _ <- call graphql (AssignMainContact company companyContactId) ;;
                  ret tt
                else ret tt
            | None => ret tt
            end
        | None => ret tt
        end
      else ret tt
  | _, _ => ret tt
  end.

Definition workflow (formData : FormData) : M World HttpResponse :=
  existingCustomer <- resolveIdentity World graphql formData ;;
  updateExistingCustomer formData existingCustomer ;;;
  companyId <- createCompany formData existingCustomer ;;
  assignAddress World graphql formData companyId ;;;
  customer <- createOrReuseCustomer formData existingCustomer ;;
  linkCustomer existingCustomer companyId (fst customer) ;;;
  ret (JsonResult (aggregate companyId (fst customer) (snd customer))).

Definition handler (request : HttpRequest) : M World HttpResponse :=
  loadAdmin request ;;;
  workflow (req_formData request).

Definition action (request : HttpRequest) (w : World) : HttpResponse * list Event :=
  let r := handler request w in (answer r, log r).

End Workflow.

End AppsProxy.

(** ** A scripted client

    A remote that answers the calls, in order, from a list of replies;
    used to run the handler on concrete scenarios. *)

Definition Script : Type := list (Reply Response).

Definition unexpected {A} : Reply A := Threw "unexpected reply".

Definition expect (r : Request) (x : Response) : Reply (resp_of r) :=
  match r as r0 return Reply (resp_of r0) with
  | GetCustomerByEmail _ | SearchCustomerByEmail _
  | SearchCustomerByEmailPrefix _ | GetAllRecentCustomers =>
      match x with RCustomers j => Json j | _ => unexpected end
  | UpdateCustomer _ =>
      match x with RCustomerUpdate j => Json j | _ => unexpected end
  | GetCompaniesByEmailMetafield =>
      match x with RCompanies j => Json j | _ => unexpected end
  | CreateCompany _ =>
      match x with RCompanyCreate j => Json j | _ => unexpected end
  | CreateCustomer _ =>
      match x with RCustomerCreate j => Json j | _ => unexpected end
  | GetCompanyLocations _ | GetLocationRoles _ =>
      match x with RLocations j => Json j | _ => unexpected end
  | GetCompanyRoles _ =>
      match x with RRoles j => Json j | _ => unexpected end
  | AssignCustomerAsContact _ _ | AssignNewCustomerAsContact _ _ =>
      match x with RAssignContact j => Json j | _ => unexpected end
  | SetCompanyEmailMetafield _ | UpdateCompanyLocationName _ _
  | CompanyLocationAssignAddress _ _ _ | SetCompanyLocationTaxId _ _
  | AssignMainContact _ _ | AssignRole _ _ _ =>
      match x with RPayload j => Json j | _ => unexpected end
  end.

Definition scripted : Client Script :=
  fun r script =>
    match script with
    | [] => (Threw "script exhausted", [])
    | Threw e :: rest => (Threw e, rest)
    | Json x :: rest => (expect r x, rest)
    end.

(** ** Scenarios

    Requests, directory entries and replies used to run the handler. *)

Definition installed (formData : FormData) : HttpRequest :=
  {| req_formData := formData;
     req_proxyShop := Some "acme";
     req_urlShop := None;
     req_refererHost := None;
     req_loadSession := fun _ => Some {| accessToken := "shpat" |} |}.

Definition accepted : Reply Response :=
  Json (RPayload {| pj_errors := None; pj_userErrors := Some [] |}).

Definition customersFound (edges : list Customer) : Reply Response :=
  Json (RCustomers {| customers_edges := Some edges |}).

Definition customerUpdated : Reply Response :=
  Json (RCustomerUpdate {| cuj_userErrors := Some [] |}).

Definition companiesFound (edges : list Company) : Reply Response :=
  Json (RCompanies {| companies_edges := Some edges |}).

Definition companyCreated (id : ID) : Reply Response :=
  Json (RCompanyCreate {| ccj_errors := None; ccj_userErrors := Some [];
                          ccj_company_id := Some id |}).

Definition companyRejected (reason : string) : Reply Response :=
  Json (RCompanyCreate
          {| ccj_errors := None;
             ccj_userErrors := Some [ {| ue_field := ["input"; "company"; "name"];
                                         ue_message := reason |} ];
             ccj_company_id := None |}).

Definition customerCreated (id : ID) : Reply Response :=
  Json (RCustomerCreate {| crj_errors := None; crj_userErrors := Some [];
                           crj_customer_id := Some id |}).

Definition customerRejected (reasons : list string) : Reply Response :=
  Json (RCustomerCreate
          {| crj_errors := None;
             crj_userErrors :=
               Some (map (fun m => {| ue_field := ["input"]; ue_message := m |}) reasons);
             crj_customer_id := None |}).

Definition locationsFound (edges : list CompanyLocation) : Reply Response :=
  Json (RLocations {| locations_edges := Some edges |}).

Definition contactAssigned (id : ID) : Reply Response :=
  Json (RAssignContact {| acj_companyContact_id := Some id; acj_userErrors := Some [] |}).

Definition contactRejected (reason : string) : Reply Response :=
  Json (RAssignContact
          {| acj_companyContact_id := None;
             acj_userErrors := Some [ {| ue_field := ["customerId"];
                                         ue_message := reason |} ] |}).

Definition rolesFound (defaultRole : option Role) (roles : list Role) : Reply Response :=
  Json (RRoles {| rj_defaultRole := defaultRole; rj_contactRoles := Some roles |}).

Definition taxMutationMissing : Reply Response :=
  Json (RPayload
          {| pj_errors :=
               Some [ {| ge_message :=
                           "Field 'companyLocationTaxSettingsUpdate' doesn't exist on type 'Mutation'" |} ];
             pj_userErrors := None |}).

Definition customer (id : ID) (email : string) (tags : list string) : Customer :=
  {| cu_id := id; cu_email := Some email; cu_firstName := Some "Jo";
     cu_lastName := Some "Doe"; cu_phone := None; cu_tags := Some tags |}.

Definition companyWithEmail (id : ID) (email : string) : Company :=
  {| co_id := id; co_name := "Acme";
     co_metafields :=
       Some [ {| mf_id := "gid://shopify/Metafield/1"; mf_namespace := "custom";
                 mf_key := "companyEmail"; mf_value := email;
                 mf_type := "single_line_text_field" |} ] |}.

Definition mainLocation : CompanyLocation :=
  {| loc_id := "gid://shopify/CompanyLocation/1"; loc_name := "Acme" |}.

(** The submission of the end-to-end scenarios of the specification. *)
Definition submission : FormData :=
  [ ("companyName", "Acme"); ("firstName", "Jo"); ("lastName", "Doe");
    ("userEmail", "jo@acme.test"); ("address1", "1 Main St") ].

(** ** Vocabulary of the statements *)

Section Vocabulary.

Context {js : JsString}.

(** The operations of a call log, in order. *)
Definition requests (l : list Event) : list Request := map fst l.

(** Every call a block makes satisfies [P]. *)
Definition emits {World A} (P : Request -> Prop) (m : M World A) : Prop :=
  forall w e, In e (log (m w)) -> P (fst e).

(** A block makes no call at all. *)
Definition silent {World A} (m : M World A) : Prop :=
  forall w, log (m w) = [].

(** Whenever a block leaves the handler through [return], the response
    satisfies [P]. *)
Definition returnsOnly {World A} (P : HttpResponse -> Prop) (m : M World A) : Prop :=
  forall w h, completion (m w) = Return h -> P h.

(** A block never leaves the handler through [return]. *)
Definition noReturn {World A} (m : M World A) : Prop :=
  forall w h, completion (m w) <> Return h.

(** Whenever a block completes normally, its value satisfies [Q]. *)
Definition post {World A} (Q : A -> Prop) (m : M World A) : Prop :=
  forall w a, completion (m w) = Normal a -> Q a.

(** A block always completes normally. *)
Definition completes {World A} (m : M World A) : Prop :=
  forall w, exists a, completion (m w) = Normal a.

(** A run of a block from some state of the directory: how it completes
    and the calls it makes. *)
Definition ran {World A} (m : M World A) (c : Completion A) (l : list Event) : Prop :=
  exists w, completion (m w) = c /\ log (m w) = l.

(** A customer [c] was returned by one of the customer queries of a log. *)
Definition returnedCustomer (c : Customer) (l : list Event) : Prop :=
  exists q edges,
    In (q, Json (RCustomers {| customers_edges := Some edges |})) l /\ In c edges.

(** [json.data?.companies?.edges || []] *)
Definition companiesOf (j : CompaniesJson) : list Company :=
  match companies_edges j with Some edges => edges | None => [] end.

(** What the customer stage yields after the update of a found customer. *)
Definition updateOutcome (found : Customer) (reply : Reply CustomerUpdateJson)
 : Completion (Nullable ID * option string) :=
  match reply with
  | Threw e => Throw e
  | Json j =>
      match cuj_userErrors j with
      | Some (e :: _) => Normal (Null, Some (ue_message e))
      | _ => Normal (Value (cu_id found), None)
      end
  end.

(** The three-tier search as the specification words it: the exact
    query; the prefixed query only when the exact one came back with no
    edge; the scan of recent customers only when the prefixed one came
    back with no edge either. *)
Inductive threeTier (userEmail : string) : list Event -> Prop :=
| tier_exact reply1 :
    (forall j1, reply1 = Json (RCustomers j1) -> noEdges (customers_edges j1) = false) ->
    threeTier userEmail [(SearchCustomerByEmail (trim userEmail), reply1)]
| tier_prefixed j1 reply2 :
    noEdges (customers_edges j1) = true ->
    (forall j2, reply2 = Json (RCustomers j2) -> noEdges (customers_edges j2) = false) ->
    threeTier userEmail
      [(SearchCustomerByEmail (trim userEmail), Json (RCustomers j1));
       (SearchCustomerByEmailPrefix ("email:" ++ trim userEmail), reply2)]
| tier_scan j1 j2 reply3 :
    noEdges (customers_edges j1) = true ->
    noEdges (customers_edges j2) = true ->
    threeTier userEmail
      [(SearchCustomerByEmail (trim userEmail), Json (RCustomers j1));
       (SearchCustomerByEmailPrefix ("email:" ++ trim userEmail), Json (RCustomers j2));
       (GetAllRecentCustomers, reply3)].

(** Role assignment as the specification words it: the first location of
    the company is looked up, then the roles, and the chosen role is
    assigned to the contact at that location. *)
Inductive roleTrace (company contact : ID) : list Event -> Prop :=
| role_lookup_threw e :
    roleTrace company contact [(GetLocationRoles company, Threw e)]
| role_no_location j :
    firstNode (locations_edges j) = None ->
    roleTrace company contact [(GetLocationRoles company, Json (RLocations j))]
| role_roles_threw j location e :
    firstNode (locations_edges j) = Some location ->
    roleTrace company contact
      [(GetLocationRoles company, Json (RLocations j));
       (GetCompanyRoles company, Threw e)]
| role_none j location roles :
    firstNode (locations_edges j) = Some location ->
    (roleToAssign roles = None \/
     exists role, roleToAssign roles = Some role /\ nonEmpty (role_id role) = false) ->
    roleTrace company contact
      [(GetLocationRoles company, Json (RLocations j));
       (GetCompanyRoles company, Json (RRoles roles))]
| role_assigned j location roles role reply :
    firstNode (locations_edges j) = Some location ->
    roleToAssign roles = Some role ->
    nonEmpty (role_id role) = true ->
    roleTrace company contact
      [(GetLocationRoles company, Json (RLocations j));
       (GetCompanyRoles company, Json (RRoles roles));
       (AssignRole contact (role_id role) (loc_id location), reply)].

(** Linking of a pre-existing customer as the specification words it:
    contact assignment, then (with a contact id) main-contact assignment,
    then role assignment. *)
Inductive linkTrace (company customer : ID) : Completion unit -> list Event -> Prop :=
| link_assign_threw e :
    linkTrace company customer (Throw e)
      [(AssignCustomerAsContact company customer, Threw e)]
| link_no_contact j :
    truthy (acj_companyContact_id j) = false ->
    linkTrace company customer (Normal tt)
      [(AssignCustomerAsContact company customer, Json (RAssignContact j))]
| link_main_threw j contact e :
    acj_companyContact_id j = Some contact -> nonEmpty contact = true ->
    linkTrace company customer (Throw e)
      [(AssignCustomerAsContact company customer, Json (RAssignContact j));
       (AssignMainContact company contact, Threw e)]
| link_roles j contact p roles :
    acj_companyContact_id j = Some contact -> nonEmpty contact = true ->
    roleTrace company contact roles ->
    linkTrace company customer (Normal tt)
      ((AssignCustomerAsContact company customer, Json (RAssignContact j))
       :: (AssignMainContact company contact, Json (RPayload p))
       :: roles).

(** The classes of operations used in the statements. *)
Definition isUpdateCustomer (r : Request) : bool :=
  match r with UpdateCustomer _ => true | _ => false end.

Definition isCreateCompany (r : Request) : bool :=
  match r with CreateCompany _ => true | _ => false end.

Definition isMetafieldsSet (r : Request) : bool :=
  match r with SetCompanyEmailMetafield _ => true | _ => false end.

Definition isCompaniesQuery (r : Request) : bool :=
  match r with GetCompaniesByEmailMetafield => true | _ => false end.

Definition isTaxUpdate (r : Request) : bool :=
  match r with SetCompanyLocationTaxId _ _ => true | _ => false end.

Definition isCustomersQuery (r : Request) : bool :=
  match r with
  | GetCustomerByEmail _ | SearchCustomerByEmail _
  | SearchCustomerByEmailPrefix _ | GetAllRecentCustomers => true
  | _ => false
  end.

(** The operations of each stage of the workflow. *)
Definition identityOps (r : Request) : bool :=
  match r with GetCustomerByEmail _ | UpdateCustomer _ => true | _ => false end.

Definition addressOps (r : Request) : bool :=
  match r with
  | GetCompanyLocations _ | UpdateCompanyLocationName _ _
  | CompanyLocationAssignAddress _ _ _ | SetCompanyLocationTaxId _ _ => true
  | _ => false
  end.

Definition customerOps (r : Request) : bool :=
  match r with
  | CreateCustomer _ | SearchCustomerByEmail _ | SearchCustomerByEmailPrefix _
  | GetAllRecentCustomers | UpdateCustomer _ => true
  | _ => false
  end.

Definition linkOps (r : Request) : bool :=
  match r with
  | AssignCustomerAsContact _ _ | AssignMainContact _ _ | GetLocationRoles _
  | GetCompanyRoles _ | AssignRole _ _ _ | AssignNewCustomerAsContact _ _ => true
  | _ => false
  end.

(** Further classes of operations. *)
Definition isCreateCustomer (r : Request) : bool :=
  match r with CreateCustomer _ => true | _ => false end.

Definition isIdentityQuery (r : Request) : bool :=
  match r with GetCustomerByEmail _ => true | _ => false end.

(** The three queries of the email-conflict search. *)
Definition isSearch (r : Request) : bool :=
  match r with
  | SearchCustomerByEmail _ | SearchCustomerByEmailPrefix _ | GetAllRecentCustomers => true
  | _ => false
  end.

(** The answer of the outer [catch] to an exception with message [m]. *)
Definition internalError (m : string) : HttpResponse :=
  JsonError "Internal server error" (Some (ErrorMessage m)) 500.

(** The operations of the stages before the customer stage. *)
Definition preOps (r : Request) : bool :=
  match r with
  | GetCustomerByEmail _ | UpdateCustomer _ | GetCompaniesByEmailMetafield
  | CreateCompany _ | SetCompanyEmailMetafield _ => true
  | _ => addressOps r
  end.

(** How the workflow ends once the customer stage and the linking stage
    have completed as [c7] and [c8]. *)
Definition workflowEnd (companyId : option ID)
  (c7 : Completion (Nullable ID * option string)) (c8 : Completion unit)
  : Completion HttpResponse :=
  match c7 with
  | Normal customer =>
      match c8 with
      | Normal _ => Normal (JsonResult (aggregate companyId (fst customer) (snd customer)))
      | Throw m => Throw m
      | Return h => Return h
      end
  | Throw m => Throw m
  | Return h => Return h
  end.

(** What the stages before the customer stage may call, given the
    existing customer and the company id of the run. *)
Definition preFact (formData : FormData) (existingCustomer : option Customer)
  (companyId : option ID) (r : Request) : Prop :=
  preOps r = true /\
  (forall input, r = UpdateCustomer input ->
     exists existing, existingCustomer = Some existing /\
                      input = customerInput formData existing) /\
  (addressOps r = true -> truthy companyId = true).

(** The same for a call with its reply: the identity query answered with
    the existing customer as its first node. *)
Definition preEvent (formData : FormData) (existingCustomer : option Customer)
  (companyId : option ID) (e : Event) : Prop :=
  preFact formData existingCustomer companyId (fst e) /\
  (forall q j, e = (GetCustomerByEmail q, Json (RCustomers j)) ->
               firstNode (customers_edges j) = existingCustomer).

(** A customer [c] was returned by one of the three queries of the
    email-conflict search of a log. *)
Definition located (c : Customer) (l : list Event) : Prop :=
  exists q edges,
    isSearch q = true /\
    In (q, Json (RCustomers {| customers_edges := Some edges |})) l /\ In c edges.

(** [x] is the first element of [l] that satisfies [f]. *)
Definition firstWith {A} (f : A -> bool) (x : A) (l : list A) : Prop :=
  exists before after,
    l = (before ++ x :: after)%list /\
    (forall y, In y before -> f y = false) /\
    f x = true.

(** [found] is the first customer of [edges] whose email passes the
    comparison with the submitted one. *)
Definition firstMatch (userEmail : string) (found : Customer) (edges : list Customer)
  : Prop :=
  exists before after,
    edges = (before ++ found :: after)%list /\
    (forall c, In c before -> emailMatches userEmail c = Some false) /\
    emailMatches userEmail found = Some true.

(** [found] is the first customer with a matching email in the reply to
    the last of the [searches]. *)
Definition foundBy (userEmail : string) (found : Customer) (searches : list Event)
  : Prop :=
  exists earlier q edges,
    searches =
      (earlier ++ [(q, Json (RCustomers {| customers_edges := Some edges |}))])%list /\
    firstMatch userEmail found edges.

(** The calls made inside the inner [try] blocks of the handler: what
    they throw is caught and logged. *)
Definition guarded (r : Request) : bool :=
  match r with
  | SetCompanyEmailMetafield _ | GetLocationRoles _ | GetCompanyRoles _
  | AssignRole _ _ _ => true
  | _ => addressOps r
  end.

(** The last call of [l], made outside the inner [try] blocks, threw [m]. *)
Definition lastThrew (m : string) (l : list Event) : Prop :=
  exists before q, l = (before ++ [(q, Threw m)])%list /\ guarded q = false.

(** How an exception with message [m] reaches the outer [catch] after
    the calls [l]: the last call threw it; or, before any call, [new URL]
    rejected the referer or [userEmail] is missing from the form; or a
    search of the email-conflict fallback returned a customer without an
    email. *)
Definition escaped (request : HttpRequest) (m : string) (l : list Event) : Prop :=
  lastThrew m l \/
  (l = [] /\ req_refererHost request = Some (Threw m)) \/
  (l = [] /\ get (req_formData request) "userEmail" = None /\
   m = typeError "toLowerCase") \/
  (m = typeError "toLowerCase" /\ exists x, located x l /\ cu_email x = None).

(** [tags] is the union of the prior tags and [wholesale]: the same
    elements, the prior tags kept in place as a prefix, and [wholesale]
    occurring once when it was absent and as often as before when it was
    present. *)
Definition wholesaleAdded (prior : option (list string)) (tags : list string) : Prop :=
  let prior := match prior with Some t => t | None => [] end in
  (forall t, In t tags <-> In t prior \/ t = "wholesale") /\
  (exists added, tags = (prior ++ added)%list) /\
  count_occ string_dec tags "wholesale" =
    Nat.max 1 (count_occ string_dec prior "wholesale").

(** [c] is the first customer in the reply to the identity query of [l]. *)
Definition identified (c : Customer) (l : list Event) : Prop :=
  exists q rest,
    In (GetCustomerByEmail q,
        Json (RCustomers {| customers_edges := Some (c :: rest) |})) l.

(** The calls of a log whose operation satisfies [f]. *)
Definition callsOf (f : Request -> bool) (l : list Event) : list Event :=
  filter (fun e => f (fst e)) l.

(** How the route answers after the fallback update of [found] was
    answered by [reply] and followed by the calls [link]. *)
Definition afterFallbackUpdate (companyId : option ID) (found : Customer)
  (reply : Reply CustomerUpdateJson) (link : list Event) (answer : HttpResponse) : Prop :=
  match reply with
  | Threw m => link = [] /\ answer = internalError m
  | Json j =>
      match cuj_userErrors j with
      | Some (u :: _) =>
          link = [] /\
          answer = JsonResult (aggregate companyId Null (Some (ue_message u)))
      | _ =>
          (link = [] /\
           answer = JsonResult (aggregate companyId (Value (cu_id found)) None)) \/
          (exists company linked,
             companyId = Some company /\
             link = [(AssignNewCustomerAsContact company (cu_id found),
                      mapReply RAssignContact linked)] /\
             answer = match linked with
                      | Threw m => internalError m
                      | Json _ =>
                          JsonResult (aggregate companyId (Value (cu_id found)) None)
                      end)
      end
  end.

(** The client [graphql] with every reply to the tax mutation replaced by
    [reply]; the directory moves on as under [graphql]. *)
Definition withTaxReply {World} (graphql : Client World) (reply : Reply PayloadJson)
  : Client World :=
  fun r =>
    match r as r0 return World -> Reply (resp_of r0) * World with
    | SetCompanyLocationTaxId id tax =>
        fun w => (reply, snd (graphql (SetCompanyLocationTaxId id tax) w))
    | r0 => fun w => graphql r0 w
    end.

(** Two blocks complete alike, leave the directory in the same state and
    make the same calls. *)
Definition alike {World A} (m1 m2 : M World A) : Prop :=
  forall w,
    completion (m1 w) = completion (m2 w) /\
    world (m1 w) = world (m2 w) /\
    requests (log (m1 w)) = requests (log (m2 w)).

End Vocabulary.

(** * Properties *)

(** ** JavaScript strings *)

Lemma nonEmpty_false (s : string) : nonEmpty s = false -> s = EmptyString.
Proof. destruct s; simpl; congruence. Qed.

Lemma nonEmpty_true (s : string) : nonEmpty s = true <-> s <> EmptyString.
Proof. destruct s; simpl; split; congruence. Qed.

(** ** The monad *)

Section MonadFacts.

Context {World : Type}.
Variable graphql : Client World.

Lemma bind_log_in {A B} (m : M World A) (k : A -> M World B) w e :
  In e (log (bind m k w)) ->
  In e (log (m w)) \/
  exists a, completion (m w) = Normal a /\ In e (log (k a (world (m w)))).
Proof.
  unfold bind. destruct (completion (m w)) as [a|msg|h] eqn:E; simpl; auto.
  intros H. apply in_app_or in H. destruct H; eauto.
Qed.

Lemma call_log (r : Request) w :
  log (call graphql r w) = [(r, mapReply (response r) (fst (graphql r w)))].
Proof. unfold call. destruct (graphql r w); reflexivity. Qed.

Lemma call_completion (r : Request) w :
  completion (call graphql r w) =
  match fst (graphql r w) with Threw e => Throw e | Json body => Normal body end.
Proof. unfold call. destruct (graphql r w); reflexivity. Qed.

Lemma call_world (r : Request) w : world (call graphql r w) = snd (graphql r w).
Proof. unfold call. destruct (graphql r w); reflexivity. Qed.

Lemma tryCatch_log (m : M World unit) w : log (tryCatch m w) = log (m w).
Proof. unfold tryCatch. destruct (completion (m w)); reflexivity. Qed.

Lemma tryCatch_world (m : M World unit) w : world (tryCatch m w) = world (m w).
Proof. unfold tryCatch. destruct (completion (m w)); reflexivity. Qed.

(** *** The calls of a block *)

Lemma emits_ret {A} P (a : A) : emits P (@ret World A a).
Proof. intros w e []. Qed.

Lemma emits_throw {A} P msg : emits P (@throw World A msg).
Proof. intros w e []. Qed.

Lemma emits_returnJson {A} P h : emits P (@returnJson World A h).
Proof. intros w e []. Qed.

Lemma emits_lift {A} P (c : Completion A) : emits P (@lift World A c).
Proof. intros w e []. Qed.

Lemma emits_call (P : Request -> Prop) r : P r -> emits P (call graphql r).
Proof.
  intros H w e. rewrite call_log. intros [<-|[]]. exact H.
Qed.

Lemma emits_bind {A B} P (m : M World A) (k : A -> M World B) :
  emits P m -> (forall a, emits P (k a)) -> emits P (bind m k).
Proof.
  intros Hm Hk w e H. apply bind_log_in in H.
  destruct H as [H|(a & _ & H)]; [eapply Hm | eapply Hk]; eauto.
Qed.

Lemma emits_tryCatch P (m : M World unit) : emits P m -> emits P (tryCatch m).
Proof. intros H w e. rewrite tryCatch_log. apply H. Qed.

Lemma emits_when P b (m : M World unit) : emits P m -> emits P (when b m).
Proof. destruct b; simpl; auto using emits_ret. Qed.

Lemma emits_weaken {A} (P Q : Request -> Prop) (m : M World A) :
  (forall r, P r -> Q r) -> emits P m -> emits Q m.
Proof. intros H Hm w e He. apply H. eapply Hm; eauto. Qed.

Lemma silent_emits {A} P (m : M World A) : silent m -> emits P m.
Proof. intros H w e. rewrite H. intros []. Qed.

(** *** Leaving through [return] *)

Lemma returnsOnly_ret {A} P (a : A) : returnsOnly P (@ret World A a).
Proof. intros w h; discriminate. Qed.

Lemma returnsOnly_throw {A} P msg : returnsOnly P (@throw World A msg).
Proof. intros w h; discriminate. Qed.

Lemma returnsOnly_returnJson {A} (P : HttpResponse -> Prop) h :
  P h -> returnsOnly P (@returnJson World A h).
Proof. intros H w h' [= <-]. exact H. Qed.

Lemma returnsOnly_call P r : returnsOnly P (call graphql r).
Proof.
  intros w h. rewrite call_completion. destruct (fst (graphql r w)); discriminate.
Qed.

Lemma returnsOnly_bind {A B} P (m : M World A) (k : A -> M World B) :
  returnsOnly P m -> (forall a, returnsOnly P (k a)) -> returnsOnly P (bind m k).
Proof.
  intros Hm Hk w h. unfold bind.
  destruct (completion (m w)) as [a|msg|h'] eqn:E; simpl.
  - apply Hk.
  - discriminate.
  - intros [= <-]. eapply Hm; eauto.
Qed.

Lemma returnsOnly_tryCatch P (m : M World unit) :
  returnsOnly P m -> returnsOnly P (tryCatch m).
Proof.
  intros Hm w h. unfold tryCatch.
  destruct (completion (m w)) as [a|msg|h'] eqn:E; simpl.
  - rewrite E. discriminate.
  - discriminate.
  - apply Hm.
Qed.

Lemma returnsOnly_when P b (m : M World unit) :
  returnsOnly P m -> returnsOnly P (when b m).
Proof. destruct b; simpl; auto using returnsOnly_ret. Qed.

Lemma returnsOnly_lift {A} P (c : Completion A) :
  (forall h, c <> Return h) -> returnsOnly P (@lift World A c).
Proof. intros H w h E. exfalso. eapply H; eauto. Qed.

Lemma noReturn_returnsOnly {A} (m : M World A) :
  noReturn m <-> returnsOnly (fun _ => False) m.
Proof.
  split.
  - intros H w h E. eapply H; eauto.
  - intros H w h E. eapply H; eauto.
Qed.

Lemma noReturn_any {A} P (m : M World A) : noReturn m -> returnsOnly P m.
Proof. intros H w h E. exfalso. eapply H; eauto. Qed.

(** A [try] block that cannot [return] always completes normally. *)
Lemma completes_tryCatch (m : M World unit) : noReturn m -> completes (tryCatch m).
Proof.
  intros Hm w. unfold tryCatch.
  destruct (completion (m w)) as [[]|msg|h] eqn:E; simpl; eauto.
  exfalso. eapply Hm; eauto.
Qed.

Lemma completes_ret {A} (a : A) : completes (@ret World A a).
Proof. intros w; simpl; eauto. Qed.

Lemma completes_noReturn {A} (m : M World A) : completes m -> noReturn m.
Proof. intros H w h E. destruct (H w) as [a Ha]. congruence. Qed.

(** *** Values of normal completion *)

Lemma post_ret {A} (Q : A -> Prop) (a : A) : Q a -> post Q (@ret World A a).
Proof. intros H w a' [= <-]. exact H. Qed.

Lemma post_throw {A} (Q : A -> Prop) msg : post Q (@throw World A msg).
Proof. intros w a; discriminate. Qed.

Lemma post_returnJson {A} (Q : A -> Prop) h : post Q (@returnJson World A h).
Proof. intros w a; discriminate. Qed.

Lemma post_bind {A B} (Q1 : A -> Prop) (Q2 : B -> Prop)
  (m : M World A) (k : A -> M World B) :
  post Q1 m -> (forall a, Q1 a -> post Q2 (k a)) -> post Q2 (bind m k).
Proof.
  intros Hm Hk w b. unfold bind.
  destruct (completion (m w)) as [a|msg|h] eqn:E; simpl; try discriminate.
  apply Hk. eapply Hm; eauto.
Qed.

Lemma post_any {A} (m : M World A) : post (fun _ => True) m.
Proof. intros w a _. exact I. Qed.

Lemma post_weaken {A} (Q Q' : A -> Prop) (m : M World A) :
  (forall a, Q a -> Q' a) -> post Q m -> post Q' m.
Proof. intros H Hm w a E. apply H. eapply Hm; eauto. Qed.

End MonadFacts.

Ltac emits_leaf := solve [ reflexivity | exact I | simpl; eauto | simpl; tauto ].

Ltac emits_tac :=
  repeat first
    [ apply emits_ret | apply emits_throw | apply emits_returnJson
    | apply emits_lift | apply emits_tryCatch | apply emits_when
    | apply emits_call; emits_leaf
    | apply emits_bind; [| intros ?]
    | match goal with
      | |- emits _ (match ?x with _ => _ end) => destruct x
      end
    | progress cbv zeta ].

Ltac returnsOnly_tac :=
  repeat first
    [ apply returnsOnly_ret | apply returnsOnly_throw | apply returnsOnly_call
    | apply returnsOnly_tryCatch | apply returnsOnly_when
    | apply returnsOnly_bind; [| intros ?]
    | apply returnsOnly_lift; intros ?; discriminate
    | match goal with
      | |- returnsOnly _ (match ?x with _ => _ end) => destruct x
      end
    | progress cbv zeta ].

(** ** Runs of a block, read backwards *)

Section RanFacts.

Context {World : Type}.
Variable graphql : Client World.

Lemma ran_ret {A} (a : A) c l : ran (@ret World A a) c l -> c = Normal a /\ l = [].
Proof. intros (w & <- & <-). auto. Qed.

Lemma ran_throw {A} msg (c : Completion A) l :
  ran (@throw World A msg) c l -> c = Throw msg /\ l = [].
Proof. intros (w & <- & <-). auto. Qed.

Lemma ran_returnJson {A} h (c : Completion A) l :
  ran (@returnJson World A h) c l -> c = Return h /\ l = [].
Proof. intros (w & <- & <-). auto. Qed.

Lemma ran_lift {A} (x c : Completion A) l : ran (@lift World A x) c l -> c = x /\ l = [].
Proof. intros (w & <- & <-). auto. Qed.

Lemma ran_call r c l :
  ran (call graphql r) c l ->
  exists reply : Reply (resp_of r),
    c = match reply with Threw e => Throw e | Json body => Normal body end /\
    l = [(r, mapReply (response r) reply)].
Proof.
  intros (w & <- & <-). exists (fst (graphql r w)).
  rewrite call_completion, call_log. auto.
Qed.

Lemma ran_bind {A B} (m : M World A) (k : A -> M World B) c l :
  ran (bind m k) c l ->
  (exists a l1 l2, ran m (Normal a) l1 /\ ran (k a) c l2 /\ l = (l1 ++ l2)%list) \/
  (exists e, ran m (Throw e) l /\ c = Throw e) \/
  (exists h, ran m (Return h) l /\ c = Return h).
Proof.
  intros (w & <- & <-). unfold bind.
  destruct (completion (m w)) as [a|e|h] eqn:E; simpl.
  - left. exists a, (log (m w)), (log (k a (world (m w)))).
    repeat split; [exists w | exists (world (m w))]; auto.
  - right; left. exists e. split; [exists w|]; auto.
  - right; right. exists h. split; [exists w|]; auto.
Qed.

Lemma ran_tryCatch (m : M World unit) c l :
  ran (tryCatch m) c l ->
  exists c', ran m c' l /\ c = match c' with Throw _ => Normal tt | _ => c' end.
Proof.
  intros (w & <- & <-). exists (completion (m w)). split.
  - exists w. rewrite tryCatch_log. auto.
  - unfold tryCatch. destruct (completion (m w)) eqn:E; simpl; auto.
Qed.

Lemma ran_when b (m : M World unit) c l :
  ran (when b m) c l ->
  (b = true /\ ran m c l) \/ (b = false /\ c = Normal tt /\ l = []).
Proof.
  destruct b; simpl; auto. intros H. apply ran_ret in H. auto.
Qed.

Lemma ran_emits {A} P (m : M World A) c l :
  emits P m -> ran m c l -> forall e, In e l -> P (fst e).
Proof. intros H (w & _ & <-). apply H. Qed.

Lemma ran_silent {A} (m : M World A) c l : silent m -> ran m c l -> l = [].
Proof. intros H (w & _ & <-). apply H. Qed.

Lemma ran_post {A} (Q : A -> Prop) (m : M World A) a l :
  post Q m -> ran m (Normal a) l -> Q a.
Proof. intros H (w & E & _). eapply H; eauto. Qed.

Lemma ran_returnsOnly {A} P (m : M World A) h l :
  returnsOnly P m -> ran m (Return h) l -> P h.
Proof. intros H (w & E & _). eapply H; eauto. Qed.

Lemma ran_noReturn {A} (m : M World A) h l : noReturn m -> ran m (Return h) l -> False.
Proof. intros H (w & E & _). eapply H; eauto. Qed.

Lemma ran_completes {A} (m : M World A) c l :
  completes m -> ran m c l -> exists a, c = Normal a.
Proof. intros H (w & <- & _). apply H. Qed.

End RanFacts.

Ltac ran_clean :=
  repeat match goal with
         | H : _ /\ _ |- _ => destruct H
         | H : exists _, _ |- _ => destruct H
         | H : Normal _ = Normal _ |- _ => injection H as H
         | H : Throw _ = Throw _ |- _ => injection H as H
         | H : Return _ = Return _ |- _ => injection H as H
         | H : Normal _ = Throw _ |- _ => discriminate H
         | H : Normal _ = Return _ |- _ => discriminate H
         | H : Throw _ = Normal _ |- _ => discriminate H
         | H : Throw _ = Return _ |- _ => discriminate H
         | H : Return _ = Normal _ |- _ => discriminate H
         | H : Return _ = Throw _ |- _ => discriminate H
         | H : ?x = ?y |- _ => first [is_var x; subst x | is_var y; subst y]
         end.

(** Reads a run of a block backwards, down to its calls and to the
    stages that are not unfolded. *)
Ltac ran_inv :=
  repeat first
    [ progress ran_clean
    | match goal with
      | H : ran (ret _) _ _ |- _ => apply ran_ret in H
      | H : ran (throw _) _ _ |- _ => apply ran_throw in H
      | H : ran (returnJson _) _ _ |- _ => apply ran_returnJson in H
      | H : ran (lift _) _ _ |- _ => apply ran_lift in H
      | H : ran (call _ _) _ _ |- _ =>
          apply ran_call in H; destruct H as ([?|?] & ? & ?)
      | H : ran (bind _ _) _ _ |- _ =>
          apply ran_bind in H; destruct H as [H|[H|H]]
      | H : ran (tryCatch _) _ _ |- _ =>
          apply ran_tryCatch in H; destruct H as ([[]|?|?] & ? & ?)
      | H : ran (when _ _) _ _ |- _ => apply ran_when in H; destruct H as [H|H]
      | H : ran (match ?x with _ => _ end) _ _ |- _ => destruct x eqn:?
      end ].

(** ** The pure parts *)

Lemma emailMatches_true {js : JsString} userEmail c :
  emailMatches userEmail c = Some true <->
  exists e, cu_email c = Some e /\ toLowerCase e = normalizedEmail userEmail.
Proof.
  unfold emailMatches. destruct (cu_email c) as [e|]; split.
  - intros [= H]. apply String.eqb_eq in H. eauto.
  - intros (e' & [= <-] & H). f_equal. apply String.eqb_eq. exact H.
  - discriminate.
  - intros (e' & H & _). discriminate.
Qed.

Lemma filterEdges_noReturn {js : JsString} userEmail edges h : filterEdges userEmail edges <> Return h.
Proof.
  induction edges as [|c rest IH]; simpl; [discriminate|].
  destruct (emailMatches userEmail c); [|discriminate].
  destruct (filterEdges userEmail rest); try discriminate. exact IH.
Qed.

Lemma findEdge_noReturn {js : JsString} userEmail edges h : findEdge userEmail edges <> Return h.
Proof.
  induction edges as [|c rest IH]; simpl; [discriminate|].
  destruct (emailMatches userEmail c) as [[]|]; try discriminate. exact IH.
Qed.

(** [filter] keeps exactly the edges whose email matches. *)
Lemma filterEdges_Normal {js : JsString} userEmail edges kept :
  filterEdges userEmail edges = Normal kept ->
  forall c, In c kept <-> In c edges /\ emailMatches userEmail c = Some true.
Proof.
  revert kept. induction edges as [|c0 rest IH]; simpl; intros kept H c.
  - injection H as <-. simpl. tauto.
  - destruct (emailMatches userEmail c0) as [b|] eqn:E0; [|discriminate].
    destruct (filterEdges userEmail rest) as [kept'|msg|h]; try discriminate.
    injection H as <-. specialize (IH kept' eq_refl c).
    destruct b; simpl; rewrite IH; split.
    + intros [<-|[H1 H2]]; auto.
    + intros [[<-|H1] H2]; auto.
    + intros [H1 H2]; auto.
    + intros [[<-|H1] H2]; [congruence|auto].
Qed.

(** [find] yields an edge of the list whose email matches. *)
Lemma findEdge_Some {js : JsString} userEmail edges c :
  findEdge userEmail edges = Normal (Some c) ->
  In c edges /\ emailMatches userEmail c = Some true.
Proof.
  induction edges as [|c0 rest IH]; simpl; [discriminate|].
  destruct (emailMatches userEmail c0) as [[]|] eqn:E0; try discriminate.
  - intros [= <-]. auto.
  - intros H. destruct (IH H). auto.
Qed.

(** [find] yields nothing only when no edge matches. *)
Lemma findEdge_None {js : JsString} userEmail edges :
  findEdge userEmail edges = Normal None ->
  forall c, In c edges -> emailMatches userEmail c = Some false.
Proof.
  induction edges as [|c0 rest IH]; simpl; [intros _ c []|].
  destruct (emailMatches userEmail c0) as [[]|] eqn:E0; try discriminate.
  intros H c [<-|Hc]; auto.
Qed.

Lemma isEmailMetafield_true {js : JsString} companyEmail m :
  isEmailMetafield companyEmail m = true <->
  mf_namespace m = "custom" /\ mf_key m = "companyEmail" /\
  toLowerCase (mf_value m) = trim (toLowerCase companyEmail).
Proof.
  unfold isEmailMetafield. rewrite !andb_true_iff, !String.eqb_eq. tauto.
Qed.

Lemma emailMetafield_Some {js : JsString} companyEmail company ms m :
  co_metafields company = Some ms -> In m ms -> isEmailMetafield companyEmail m = true ->
  emailMetafield companyEmail company <> None.
Proof.
  unfold emailMetafield. intros -> Hm Ht E.
  eapply find_none in E; eauto. congruence.
Qed.

(** The resolver finds a company as soon as one of the companies has a
    matching metafield, and the one it finds is such a company. *)
Lemma findExistingCompany_complete {js : JsString} companyEmail companies company :
  In company companies -> emailMetafield companyEmail company <> None ->
  exists reused, findExistingCompany companyEmail companies = Some reused /\
                 In reused companies /\ emailMetafield companyEmail reused <> None.
Proof.
  intros Hin Hm. unfold findExistingCompany.
  destruct (find _ companies) as [reused|] eqn:E.
  - apply find_some in E. destruct E as [E1 E2]. exists reused. repeat split; auto.
    destruct (emailMetafield companyEmail reused); congruence.
  - eapply find_none in E; eauto. simpl in E.
    destruct (emailMetafield companyEmail company); congruence.
Qed.

Lemma mergeTags_union (tags : option (list string)) :
  let prior := match tags with Some t => t | None => [] end in
  (forall t, In t (mergeTags tags) <-> In t prior \/ t = wholesaleTag) /\
  (exists added, mergeTags tags = (prior ++ added)%list) /\
  count_occ string_dec (mergeTags tags) wholesaleTag =
    Nat.max 1 (count_occ string_dec prior wholesaleTag).
Proof.
  cbv zeta. unfold mergeTags.
  set (prior := match tags with Some t => t | None => [] end).
  destruct (existsb (String.eqb wholesaleTag) prior) eqn:E.
  - apply existsb_exists in E. destruct E as (t & Ht & Heq).
    apply String.eqb_eq in Heq. subst t.
    repeat split.
    + auto.
    + intros [H| ->]; auto.
    + exists []. rewrite app_nil_r. reflexivity.
    + apply (count_occ_In string_dec) in Ht. lia.
  - assert (Hn : ~ In wholesaleTag prior).
    { intros Hin. apply not_true_iff_false in E. apply E.
      apply existsb_exists. exists wholesaleTag. split; auto. }
    repeat split.
    + intros H. apply in_app_or in H. destruct H as [H|[<-|[]]]; auto.
    + intros [H| ->]; apply in_or_app; simpl; auto.
    + exists [wholesaleTag]. reflexivity.
    + rewrite count_occ_app. apply (count_occ_not_In string_dec) in Hn. rewrite Hn.
      simpl. destruct (string_dec wholesaleTag wholesaleTag); [reflexivity|congruence].
Qed.

Lemma trim_nonEmpty {js : JsString} (s : string) : nonEmpty (trim s) = true -> nonEmpty s = true.
Proof. destruct s; [rewrite trim_empty; discriminate|reflexivity]. Qed.

Lemma phoneField_spec {js : JsString} (formPhone : option string) :
  (forall p, formPhone = Some p -> trim p <> EmptyString ->
             phoneField formPhone = Some (trim p)) /\
  (forall p, formPhone = Some p -> trim p = EmptyString -> phoneField formPhone = None) /\
  (formPhone = None -> phoneField formPhone = None).
Proof.
  repeat split.
  - intros p -> H. unfold phoneField. apply nonEmpty_true in H.
    rewrite H, (trim_nonEmpty _ H). reflexivity.
  - intros p -> H. unfold phoneField. rewrite H. simpl. rewrite andb_false_r. reflexivity.
  - intros ->. reflexivity.
Qed.

(** ** The stages of the workflow *)

Section StageFacts.
Context {js : JsString}.

Context {World : Type}.
Variable graphql : Client World.
Variable stamp : string.

(** The responses of the two early exits of shop and session resolution. *)
Definition isSetupError (h : HttpResponse) : Prop :=
  h = JsonError "Shop parameter missing" None 400 \/
  h = JsonError "App not installed for this shop" None 401.

(** The responses of the two exits after [companyCreate]. *)
Definition isCompanyCreateError (h : HttpResponse) : Prop :=
  exists error details, h = JsonError error (Some details) 400 /\
    ((error = "GraphQL errors in company creation" /\
      exists errs, details = GraphQLErrors errs) \/
     (error = "Failed to create company" /\
      exists errs, details = UserErrors errs /\ errs <> [])).

Lemma resolveShop_silent request : silent (@resolveShop World request).
Proof.
  intros w. unfold resolveShop.
  repeat match goal with
         | |- context [match ?x with _ => _ end] => destruct x
         end; reflexivity.
Qed.

Lemma loadAdmin_silent request : silent (@loadAdmin World request).
Proof.
  intros w. unfold loadAdmin, bind. rewrite resolveShop_silent.
  destruct (completion (resolveShop request w)) as [[s|]|e|h]; simpl; auto.
  repeat match goal with
         | |- context [match ?x with _ => _ end] => destruct x
         end; reflexivity.
Qed.

Lemma resolveShop_noReturn request : noReturn (@resolveShop World request).
Proof.
  intros w h. unfold resolveShop.
  repeat match goal with
         | |- context [match ?x with _ => _ end] => destruct x
         end; discriminate.
Qed.

Lemma loadAdmin_returns request : returnsOnly isSetupError (@loadAdmin World request).
Proof.
  unfold loadAdmin. apply returnsOnly_bind.
  - apply noReturn_any, resolveShop_noReturn.
  - intros shop.
    repeat first
      [ apply returnsOnly_ret
      | apply returnsOnly_returnJson; unfold isSetupError; auto
      | match goal with
        | |- returnsOnly _ (match ?x with _ => _ end) => destruct x
        end ].
Qed.

Lemma resolveIdentity_noReturn formData : noReturn (resolveIdentity World graphql formData).
Proof.
  apply noReturn_returnsOnly. unfold resolveIdentity. returnsOnly_tac.
Qed.

Lemma resolveIdentity_emits formData :
  emits (fun r => exists q, r = GetCustomerByEmail q) (resolveIdentity World graphql formData).
Proof.
  unfold resolveIdentity. destruct (get formData "userEmail").
  - apply emits_bind; [apply emits_call; eauto | intros; apply emits_ret].
  - apply emits_throw.
Qed.

(** The customer the identity resolver reports was returned by its query. *)
Lemma resolveIdentity_returned formData w c :
  completion (resolveIdentity World graphql formData w) = Normal (Some c) ->
  exists q rest,
    log (resolveIdentity World graphql formData w) =
      [(GetCustomerByEmail q,
        Json (RCustomers {| customers_edges := Some (c :: rest) |}))].
Proof.
  unfold resolveIdentity. destruct (get formData "userEmail") as [userEmail|];
    [|discriminate].
  unfold bind, call.
  destruct (graphql (GetCustomerByEmail (emailQuery userEmail)) w) as [[e|[edges]] w'];
    simpl; [discriminate|].
  destruct edges as [[|c' rest]|]; simpl; try discriminate.
  intros [= ->]. eauto.
Qed.

Lemma updateExistingCustomer_noReturn formData existingCustomer :
  noReturn (updateExistingCustomer World graphql formData existingCustomer).
Proof.
  apply noReturn_returnsOnly. unfold updateExistingCustomer. returnsOnly_tac.
Qed.

Lemma updateExistingCustomer_emits formData existingCustomer :
  emits (fun r => exists c, existingCustomer = Some c /\
                            r = UpdateCustomer (customerInput formData c))
        (updateExistingCustomer World graphql formData existingCustomer).
Proof.
  unfold updateExistingCustomer. destruct existingCustomer as [c|].
  - apply emits_bind; [apply emits_call; eauto | intros; apply emits_ret].
  - apply emits_ret.
Qed.

Lemma resolveCompany_noReturn formData : noReturn (resolveCompany World graphql formData).
Proof.
  apply noReturn_returnsOnly. unfold resolveCompany. returnsOnly_tac.
Qed.

Lemma resolveCompany_emits formData :
  emits (fun r => r = GetCompaniesByEmailMetafield) (resolveCompany World graphql formData).
Proof. unfold resolveCompany. emits_tac. Qed.

Lemma createOrReuseCompany_returns formData existingCustomer existingCompany :
  returnsOnly isCompanyCreateError
    (createOrReuseCompany World graphql stamp formData existingCustomer existingCompany).
Proof.
  unfold createOrReuseCompany.
  repeat first
    [ apply returnsOnly_ret | apply returnsOnly_call
    | apply returnsOnly_bind; [| intros ?]
    | apply returnsOnly_returnJson; unfold isCompanyCreateError;
      do 2 eexists; split; [reflexivity|];
      first [ left; split; [reflexivity|]; eexists; reflexivity
            | right; split; [reflexivity|]; eexists; split; [reflexivity|discriminate] ]
    | match goal with
      | |- returnsOnly _ (match ?x with _ => _ end) => destruct x
      end ].
Qed.

Lemma createOrReuseCompany_emits formData existingCustomer existingCompany :
  emits (fun r => existingCompany = None /\
                  r = CreateCompany (companyInput formData stamp existingCustomer))
    (createOrReuseCompany World graphql stamp formData existingCustomer existingCompany).
Proof.
  unfold createOrReuseCompany. destruct existingCompany.
  - apply emits_ret.
  - apply emits_bind; [apply emits_call; auto|]. intros j. emits_tac.
Qed.

Lemma setCompanyEmailMetafield_completes formData existingCompany companyId :
  completes (setCompanyEmailMetafield World graphql formData existingCompany companyId).
Proof.
  unfold setCompanyEmailMetafield.
  repeat match goal with
         | |- completes (match ?x with _ => _ end) => destruct x
         end;
    try apply completes_ret.
  apply completes_tryCatch, noReturn_returnsOnly. returnsOnly_tac.
Qed.

Lemma setCompanyEmailMetafield_emits formData existingCompany companyId :
  emits (fun r => existingCompany = None /\ isMetafieldsSet r = true)
    (setCompanyEmailMetafield World graphql formData existingCompany companyId).
Proof.
  unfold setCompanyEmailMetafield. destruct companyId; [destruct existingCompany|];
    try apply emits_ret.
  emits_tac.
Qed.

Lemma setTaxId_noReturn formData locationId :
  noReturn (setTaxId World graphql formData locationId).
Proof.
  apply noReturn_returnsOnly. unfold setTaxId. returnsOnly_tac.
Qed.

Lemma assignAddress_completes formData companyId :
  completes (assignAddress World graphql formData companyId).
Proof.
  unfold assignAddress.
  repeat match goal with
         | |- completes (match ?x with _ => _ end) => destruct x
         end;
    try apply completes_ret.
  apply completes_tryCatch, noReturn_returnsOnly.
  repeat first
    [ apply returnsOnly_ret | apply returnsOnly_call | apply returnsOnly_when
    | apply noReturn_returnsOnly, setTaxId_noReturn
    | apply returnsOnly_bind; [| intros ?]
    | match goal with
      | |- returnsOnly _ (match ?x with _ => _ end) => destruct x
      end
    | progress cbv zeta ].
Qed.

Lemma assignAddress_emits formData companyId :
  emits (fun r => addressOps r = true /\ truthy companyId = true)
    (assignAddress World graphql formData companyId).
Proof.
  unfold assignAddress, setTaxId.
  destruct companyId as [id|]; [|apply emits_ret].
  destruct (nonEmpty id) eqn:Hid; [|apply emits_ret].
  emits_tac.
Qed.

Lemma fallbackSearch_noReturn userEmail : noReturn (fallbackSearch World graphql userEmail).
Proof.
  apply noReturn_returnsOnly. unfold fallbackSearch.
  repeat first
    [ apply returnsOnly_ret | apply returnsOnly_call
    | apply returnsOnly_bind; [| intros ?]
    | apply returnsOnly_lift;
      match goal with
      | |- forall h, match ?x with _ => _ end <> _ => destruct x
      end
    | match goal with
      | |- returnsOnly _ (match ?x with _ => _ end) => destruct x
      end
    | progress cbv zeta ].
  - apply filterEdges_noReturn.
  - discriminate.
Qed.

Lemma updateFoundCustomer_noReturn formData userEmail errorMessage :
  noReturn (updateFoundCustomer World graphql formData userEmail errorMessage).
Proof.
  apply noReturn_returnsOnly. unfold updateFoundCustomer.
  apply returnsOnly_bind; [apply noReturn_any, fallbackSearch_noReturn|].
  intros edges. apply returnsOnly_bind.
  - apply returnsOnly_lift. destruct edges; [apply findEdge_noReturn|discriminate].
  - intros found. returnsOnly_tac.
Qed.

Lemma createOrReuseCustomer_noReturn formData existingCustomer :
  noReturn (createOrReuseCustomer World graphql formData existingCustomer).
Proof.
  apply noReturn_returnsOnly. unfold createOrReuseCustomer.
  repeat first
    [ apply returnsOnly_ret | apply returnsOnly_throw | apply returnsOnly_call
    | apply noReturn_returnsOnly, updateFoundCustomer_noReturn
    | apply returnsOnly_bind; [| intros ?]
    | match goal with
      | |- returnsOnly _ (match ?x with _ => _ end) => destruct x
      end
    | progress cbv zeta ].
Qed.

Lemma fallbackSearch_emits userEmail :
  emits (fun r => customerOps r = true /\ isUpdateCustomer r = false)
        (fallbackSearch World graphql userEmail).
Proof. unfold fallbackSearch. emits_tac. Qed.

Lemma createOrReuseCustomer_emits formData existingCustomer :
  emits (fun r => customerOps r = true /\ existingCustomer = None)
        (createOrReuseCustomer World graphql formData existingCustomer).
Proof.
  unfold createOrReuseCustomer, updateFoundCustomer.
  destruct existingCustomer; [apply emits_ret|].
  repeat first
    [ apply emits_ret | apply emits_throw | apply emits_lift
    | apply emits_call; emits_leaf
    | eapply emits_weaken; [|apply fallbackSearch_emits]; simpl; tauto
    | apply emits_bind; [| intros ?]
    | match goal with
      | |- emits _ (match ?x with _ => _ end) => destruct x
      end
    | progress cbv zeta ].
Qed.

(** The customer stage never yields both an id and an error. *)
Lemma createOrReuseCustomer_post formData existingCustomer :
  post (fun p => isTruthy (fst p) = false \/ snd p = None)
       (createOrReuseCustomer World graphql formData existingCustomer).
Proof.
  unfold createOrReuseCustomer, updateFoundCustomer.
  repeat first
    [ apply post_ret; simpl; auto | apply post_throw
    | eapply post_bind; [apply post_any | intros ? _]
    | match goal with
      | |- post _ (match ?x with _ => _ end) => destruct x
      end
    | progress cbv zeta ].
Qed.

Lemma assignLocationPermissions_completes companyId companyContactId :
  completes (assignLocationPermissions World graphql companyId companyContactId).
Proof.
  apply completes_tryCatch, noReturn_returnsOnly. returnsOnly_tac.
Qed.

Lemma linkCustomer_noReturn existingCustomer existingCompany companyId customerId :
  noReturn (linkCustomer World graphql existingCustomer existingCompany companyId customerId).
Proof.
  apply noReturn_returnsOnly. unfold linkCustomer.
  repeat first
    [ apply returnsOnly_ret | apply returnsOnly_call
    | apply noReturn_any, completes_noReturn, assignLocationPermissions_completes
    | apply returnsOnly_bind; [| intros ?]
    | match goal with
      | |- returnsOnly _ (match ?x with _ => _ end) => destruct x
      end
    | progress cbv zeta ].
Qed.

Lemma linkCustomer_emits existingCustomer existingCompany companyId customerId :
  emits (fun r => linkOps r = true)
        (linkCustomer World graphql existingCustomer existingCompany companyId customerId).
Proof. unfold linkCustomer, assignLocationPermissions. emits_tac. Qed.

(** *** The runs of each stage *)

Lemma loadAdmin_ran request c l :
  ran (@loadAdmin World request) c l ->
  l = [] /\
  (c = Normal tt \/ (exists e, c = Throw e) \/ (exists h, c = Return h /\ isSetupError h)).
Proof.
  intros H. split; [eapply ran_silent; eauto using loadAdmin_silent|].
  destruct c as [[]|e|h]; eauto.
  right; right. exists h. split; auto. eapply ran_returnsOnly; eauto using loadAdmin_returns.
Qed.

Lemma resolveIdentity_ran formData c l :
  ran (resolveIdentity World graphql formData) c l ->
  (get formData "userEmail" = None /\ l = [] /\ c = Throw (typeError "toLowerCase")) \/
  (exists userEmail reply,
     get formData "userEmail" = Some userEmail /\
     l = [(GetCustomerByEmail (emailQuery userEmail), mapReply RCustomers reply)] /\
     c = match reply with
         | Threw e => Throw e
         | Json j => Normal (firstNode (customers_edges j))
         end).
Proof.
  unfold resolveIdentity. intros H. ran_inv.
  all: first [ left; solve [auto]
             | right; do 2 eexists; split; [reflexivity|]; split; reflexivity ].
Qed.

Lemma updateExistingCustomer_ran formData existingCustomer c l :
  ran (updateExistingCustomer World graphql formData existingCustomer) c l ->
  (existingCustomer = None /\ l = [] /\ c = Normal tt) \/
  (exists existing reply,
     existingCustomer = Some existing /\
     l = [(UpdateCustomer (customerInput formData existing),
           mapReply RCustomerUpdate reply)] /\
     c = match reply with Threw e => Throw e | Json _ => Normal tt end).
Proof.
  unfold updateExistingCustomer. intros H. ran_inv.
  all: first [ left; solve [auto]
             | right; do 2 eexists; split; [reflexivity|]; split; reflexivity ].
Qed.

Lemma resolveCompany_ran formData c l :
  ran (resolveCompany World graphql formData) c l ->
  (hasText (get formData "companyEmail") = false /\ l = [] /\ c = Normal None) \/
  (exists companyEmail reply,
     get formData "companyEmail" = Some companyEmail /\
     nonEmpty (trim companyEmail) = true /\
     l = [(GetCompaniesByEmailMetafield, mapReply RCompanies reply)] /\
     c = match reply with
         | Threw e => Throw e
         | Json j => Normal (findExistingCompany companyEmail (companiesOf j))
         end).
Proof.
  unfold resolveCompany. intros H. ran_inv.
  all: try match goal with
           | E : _ && _ = true |- _ => apply andb_prop in E; destruct E
           end.
  all: first [ left; simpl; solve [auto]
             | right; do 2 eexists; split; [reflexivity|]; split; [assumption|];
               split; reflexivity ].
Qed.

Lemma createOrReuseCompany_ran formData existingCustomer existingCompany c l :
  ran (createOrReuseCompany World graphql stamp formData existingCustomer existingCompany) c l ->
  (exists company, existingCompany = Some company /\ l = [] /\
                   c = Normal (Some (co_id company))) \/
  (exists reply,
     existingCompany = None /\
     l = [(CreateCompany (companyInput formData stamp existingCustomer),
           mapReply RCompanyCreate reply)] /\
     c = match reply with
         | Threw e => Throw e
         | Json j =>
             match ccj_errors j with
             | Some errors =>
                 Return (JsonError "GraphQL errors in company creation"
                                   (Some (GraphQLErrors errors)) 400)
             | None =>
                 match ccj_userErrors j with
                 | Some (e :: es) =>
                     Return (JsonError "Failed to create company"
                                       (Some (UserErrors (e :: es))) 400)
                 | _ => Normal (ccj_company_id j)
                 end
             end
         end).
Proof.
  unfold createOrReuseCompany. intros H. ran_inv.
  all: try solve [left; eauto].
  all: right; eexists; split; [reflexivity|]; split; [reflexivity|]; cbn iota beta.
  all: repeat match goal with
              | E : ?x = _ |- context [match ?x with _ => _ end] => rewrite E
              end; reflexivity.
Qed.

Lemma setCompanyEmailMetafield_ran formData existingCompany companyId c l :
  ran (setCompanyEmailMetafield World graphql formData existingCompany companyId) c l ->
  c = Normal tt /\
  forall e, In e l -> existingCompany = None /\ isMetafieldsSet (fst e) = true.
Proof.
  intros H. split.
  - destruct (ran_completes _ _ _ (setCompanyEmailMetafield_completes _ _ _) H) as [[] E].
    exact E.
  - intros e He.
    exact (ran_emits _ _ _ _ (setCompanyEmailMetafield_emits _ _ _) H e He).
Qed.

Lemma assignAddress_ran formData companyId c l :
  ran (assignAddress World graphql formData companyId) c l ->
  c = Normal tt /\
  forall e, In e l -> addressOps (fst e) = true /\ truthy companyId = true.
Proof.
  intros H. split.
  - destruct (ran_completes _ _ _ (assignAddress_completes _ _) H) as [[] E].
    exact E.
  - intros e He. exact (ran_emits _ _ _ _ (assignAddress_emits _ _) H e He).
Qed.

Lemma noEdges_true {A} (edges : option (list A)) es x :
  noEdges edges = true -> edges = Some es -> ~ In x es.
Proof. destruct edges as [[|]|]; simpl; try discriminate; intros _ [= <-] []. Qed.

Lemma returnedCustomer_intro q j es x l :
  In (q, Json (RCustomers j)) l -> customers_edges j = Some es -> In x es ->
  returnedCustomer x l.
Proof. destruct j as [edges]. simpl. intros H -> Hx. exists q, es. auto. Qed.

Lemma fallbackSearch_ran userEmail c l :
  ran (fallbackSearch World graphql userEmail) c l ->
  threeTier userEmail l /\
  forall es x, c = Normal (Some es) -> In x es -> returnedCustomer x l.
Proof.
  unfold fallbackSearch. intros H. ran_inv.
  all: cbn [app mapReply response] in *.
  all: try congruence.
  all: split;
    [ first [ apply tier_scan; assumption
            | apply tier_prefixed; [assumption|intros ? [= <-]; assumption || discriminate]
            | apply tier_prefixed; [assumption|discriminate]
            | apply tier_exact; intros ? [= <-]; assumption
            | apply tier_exact; discriminate
            | idtac ]
    | intros es x E Hx; try discriminate E ].
  - injection E as E. exfalso. eapply noEdges_true; eauto.
  - injection E as <-. destruct (customers_edges body0) as [edges|] eqn:E0; [|discriminate].
    symmetry in H0. apply (filterEdges_Normal _ _ _ H0) in Hx. destruct Hx as [Hx _].
    eapply returnedCustomer_intro; eauto. simpl. auto.
  - injection E as E. eapply returnedCustomer_intro; eauto. simpl. auto.
  - injection E as E. eapply returnedCustomer_intro; eauto. simpl. auto.
Qed.

Lemma threeTier_queries userEmail l e :
  threeTier userEmail l -> In e l ->
  isCustomersQuery (fst e) = true /\ customerOps (fst e) = true /\
  isUpdateCustomer (fst e) = false.
Proof.
  intros H He. destruct H; simpl in He;
    repeat match goal with H : _ \/ _ |- _ => destruct H end;
    subst; simpl; auto; contradiction.
Qed.

Lemma updateFoundCustomer_ran formData userEmail errorMessage c l :
  ran (updateFoundCustomer World graphql formData userEmail errorMessage) c l ->
  exists searches,
    threeTier userEmail searches /\
    ((l = searches /\ (c = Normal (Null, Some errorMessage) \/ exists e, c = Throw e)) \/
     (exists found reply,
        l = (searches ++ [(UpdateCustomer (fallbackCustomerInput formData found),
                           mapReply RCustomerUpdate reply)])%list /\
        returnedCustomer found searches /\
        emailMatches userEmail found = Some true /\
        c = updateOutcome found reply)).
Proof.
  unfold updateFoundCustomer. intros H. ran_inv.
  all: try match goal with
           | H : ran (fallbackSearch _ _ _) (Return _) _ |- _ =>
               exfalso; eapply ran_noReturn; [apply fallbackSearch_noReturn|exact H]
           end.
  all: match goal with
       | H : ran (fallbackSearch _ _ _) _ _ |- _ =>
           apply fallbackSearch_ran in H; destruct H as [Ht Hr]
       end.
  all: eexists; split; [eassumption|].
  all: cbn [app] in *; rewrite ?app_nil_r.
  all: try solve [left; split; eauto].
  all: match goal with
       | H0 : _ = match ?x with _ => _ end |- _ =>
           destruct x as [es|]; [symmetry in H0|discriminate H0]
       end.
  all: try solve [exfalso; eapply findEdge_noReturn; eauto].
  all: match goal with
       | H0 : findEdge _ _ = Normal (Some _) |- _ =>
           apply findEdge_Some in H0; destruct H0 as [Hin Hm]
       end.
  all: right; do 2 eexists; split; [reflexivity|]; split; [eapply Hr; eauto|];
    split; [assumption|]; unfold updateOutcome;
    repeat match goal with
           | E : ?x = _ |- context [match ?x with _ => _ end] => rewrite E
           end; reflexivity.
Qed.

Lemma createOrReuseCustomer_ran formData existingCustomer c l :
  ran (createOrReuseCustomer World graphql formData existingCustomer) c l ->
  (exists existing, existingCustomer = Some existing /\ l = [] /\
                    c = Normal (Value (cu_id existing), None)) \/
  (existingCustomer = None /\
   exists reply rest,
     l = (CreateCustomer (newCustomerInput formData), mapReply RCustomerCreate reply) :: rest /\
     match reply with
     | Threw e => rest = [] /\ c = Throw e
     | Json j =>
         match crj_errors j with
         | Some _ =>
             rest = [] /\ c = Normal (Null, Some "GraphQL errors in customer creation")
         | None =>
             match crj_userErrors j with
             | Some (e :: _) =>
                 if includes (ue_message e) "Email has already been taken" then
                   match get formData "userEmail" with
                   | Some userEmail =>
                       ran (updateFoundCustomer World graphql formData userEmail
                              (ue_message e)) c rest
                   | None => rest = [] /\ c = Throw (typeError "trim")
                   end
                 else rest = [] /\ c = Normal (Null, Some (ue_message e))
             | _ => rest = [] /\ c = Normal (assigned (crj_customer_id j), None)
             end
         end
     end).
Proof.
  unfold createOrReuseCustomer. intros H. ran_inv.
  all: try solve [left; eauto].
  all: right; split; [reflexivity|]; do 2 eexists; split; [reflexivity|]; cbn iota beta.
  all: repeat match goal with
              | E : ?x = _ |- context [match ?x with _ => _ end] => rewrite E
              | E : ?x = _ |- context [if ?x then _ else _] => rewrite E
              end; auto.
Qed.

Lemma assignLocationPermissions_ran company contact c l :
  ran (assignLocationPermissions World graphql company contact) c l ->
  c = Normal tt /\ roleTrace company contact l.
Proof.
  unfold assignLocationPermissions. intros H. ran_inv.
  all: cbn [app mapReply response] in *.
  all: split; [reflexivity|].
  all: try solve [ eapply role_assigned; eauto
                 | eapply role_none; eauto
                 | eapply role_roles_threw; eauto
                 | eapply role_no_location; eauto
                 | eapply role_lookup_threw; eauto ].
Qed.

Lemma linkCustomer_existing_ran existing existingCompany company customer c l :
  nonEmpty company = true -> nonEmpty customer = true ->
  ran (linkCustomer World graphql (Some existing) existingCompany
         (Some company) (Value customer)) c l ->
  linkTrace company customer c l.
Proof.
  unfold linkCustomer. intros Hc Hu H. rewrite Hc, Hu in H. cbn [andb] in H.
  ran_inv.
  all: try match goal with
           | H : ran (assignLocationPermissions _ _ _ _) _ _ |- _ =>
               apply assignLocationPermissions_ran in H; destruct H as [? ?]
           end.
  all: ran_clean.
  all: cbn [app mapReply response] in *.
  all: try solve [ eapply link_roles; eauto
                 | eapply link_main_threw; eauto
                 | eapply link_no_contact; simpl;
                   repeat match goal with
                          | E : ?x = _ |- context [?x] => rewrite E
                          end; simpl; auto
                 | eapply link_assign_threw; eauto ].
Qed.

(** *** The whole workflow *)

(** A normal completion of the workflow is the aggregation of a company
    id, a customer id and a customer error that are never both set. *)
Definition isAggregate (h : HttpResponse) : Prop :=
  exists companyId customerId customerError,
    h = JsonResult (aggregate companyId customerId customerError) /\
    (isTruthy customerId = false \/ customerError = None).

Lemma workflow_post formData : post isAggregate (workflow World graphql stamp formData).
Proof.
  unfold workflow.
  eapply post_bind; [apply post_any|]. intros existingCustomer _.
  eapply post_bind; [apply post_any|]. intros _ _.
  eapply post_bind; [apply post_any|]. intros existingCompany _.
  eapply post_bind; [apply post_any|]. intros companyId _.
  eapply post_bind; [apply post_any|]. intros _ _.
  eapply post_bind; [apply post_any|]. intros _ _.
  eapply post_bind; [apply createOrReuseCustomer_post|]. intros [customerId customerError] H.
  eapply post_bind; [apply post_any|]. intros _ _.
  apply post_ret. unfold isAggregate. eauto.
Qed.

Lemma workflow_returns formData :
  returnsOnly isCompanyCreateError (workflow World graphql stamp formData).
Proof.
  unfold workflow.
  apply returnsOnly_bind; [apply noReturn_any, resolveIdentity_noReturn|]. intros existingCustomer.
  apply returnsOnly_bind; [apply noReturn_any, updateExistingCustomer_noReturn|]. intros _.
  apply returnsOnly_bind; [apply noReturn_any, resolveCompany_noReturn|]. intros existingCompany.
  apply returnsOnly_bind; [apply createOrReuseCompany_returns|]. intros companyId.
  apply returnsOnly_bind;
    [apply noReturn_any, completes_noReturn, setCompanyEmailMetafield_completes|]. intros _.
  apply returnsOnly_bind; [apply noReturn_any, completes_noReturn, assignAddress_completes|].
  intros _.
  apply returnsOnly_bind; [apply noReturn_any, createOrReuseCustomer_noReturn|]. intros customer.
  apply returnsOnly_bind; [apply noReturn_any, linkCustomer_noReturn|]. intros _.
  apply returnsOnly_ret.
Qed.

Lemma handler_post request : post isAggregate (handler World graphql stamp request).
Proof.
  unfold handler. eapply post_bind; [apply post_any|]. intros _ _. apply workflow_post.
Qed.

Lemma handler_returns request :
  returnsOnly (fun h => isSetupError h \/ isCompanyCreateError h)
              (handler World graphql stamp request).
Proof.
  unfold handler. apply returnsOnly_bind.
  - intros w h E. left. eapply loadAdmin_returns; eauto.
  - intros _ w h E. right. eapply workflow_returns; eauto.
Qed.

(** The result shape is only ever produced by the aggregation. *)
Lemma action_result request w r :
  fst (action World graphql stamp request w) = JsonResult r ->
  exists companyId customerId customerError,
    r = aggregate companyId customerId customerError /\
    (isTruthy customerId = false \/ customerError = None).
Proof.
  unfold action, answer, respond. simpl.
  destruct (completion (handler World graphql stamp request w)) as [h|e|h] eqn:E.
  - intros ->. apply handler_post in E.
    destruct E as (c & cu & ce & [= ->] & H). eauto.
  - discriminate.
  - intros ->. apply handler_returns in E.
    destruct E as [[E|E]|(error & details & E & _)]; discriminate.
Qed.

(** A run of the route is a run of the handler, answered by the outer
    [catch]. *)
Lemma action_ran request w :
  exists c,
    ran (handler World graphql stamp request) c
        (snd (action World graphql stamp request w)) /\
    fst (action World graphql stamp request w) = respond c.
Proof.
  exists (completion (handler World graphql stamp request w)).
  split; [exists w; auto|reflexivity].
Qed.

End StageFacts.

(** ** Result aggregation *)

Lemma prefix_refl (s : string) : String.prefix s s = true.
Proof. induction s as [|c s IH]; simpl; [reflexivity|]. destruct (ascii_dec c c); congruence. Qed.

Lemma includes_empty (s : string) : includes s "" = true.
Proof. destruct s; reflexivity. Qed.

Lemma includes_append (p e : string) : includes (p ++ e) e = true.
Proof.
  induction p as [|c p IH].
  - destruct e as [|a e]; [reflexivity|]. cbn [append].
    change (includes (String a e) (String a e))
      with (if String.prefix (String a e) (String a e) then true
            else includes e (String a e)).
    rewrite prefix_refl. reflexivity.
  - cbn [append].
    change (includes (String c (p ++ e)) e)
      with (if String.prefix e (String c (p ++ e)) then true
            else includes (p ++ e) e).
    rewrite IH. destruct (String.prefix e (String c (p ++ e))); reflexivity.
Qed.

Lemma aggregate_fields company customer error :
  let r := aggregate company customer error in
  success r = truthy company /\
  companyId r = company /\
  customerId r = customer /\
  customerError r = error.
Proof.
  unfold aggregate.
  destruct (truthy company), (isTruthy customer), (truthy error); simpl; auto.
Qed.

Lemma aggregate_message companyId customerId customerError e :
  truthy companyId = true ->
  isTruthy customerId = false ->
  customerError = Some e ->
  includes (message (aggregate companyId customerId customerError)) e = true.
Proof.
  intros Hc Hu ->. unfold aggregate. rewrite Hc, Hu. cbn [truthy andb].
  destruct (nonEmpty e) eqn:He; cbn [message].
  - unfold orElse. rewrite He. apply includes_append.
  - apply nonEmpty_false in He. subst e. reflexivity.
Qed.

(** Replaces the runs of the stages by what the stage lemmas say. *)
Ltac opt_clean :=
  repeat match goal with
         | H : None = Some _ |- _ => discriminate H
         | H : Some _ = None |- _ => discriminate H
         | H : Some _ = Some _ |- _ => injection H as H
         | H : true = false |- _ => discriminate H
         | H : false = true |- _ => discriminate H
         | H : ?x = ?y |- _ => first [is_var x; subst x | is_var y; subst y]
         end.

Ltac stage_inv :=
  repeat first
    [ progress ran_clean
    | progress opt_clean
    | match goal with
      | H : ran (linkCustomer _ _ _ _ _ _) (Return _) _ |- _ =>
          exfalso; exact (ran_noReturn _ _ _ (linkCustomer_noReturn _ _ _ _ _) H)
      | H : ran (createOrReuseCustomer _ _ _ _) (Return _) _ |- _ =>
          exfalso; exact (ran_noReturn _ _ _ (createOrReuseCustomer_noReturn _ _ _) H)
      | H : ran (loadAdmin _) _ _ |- _ =>
          apply loadAdmin_ran in H; destruct H as [? [?|[[? ?]|(? & ? & ?)]]]
      | H : ran (resolveIdentity _ _ _) _ _ |- _ =>
          apply resolveIdentity_ran in H;
          destruct H as [(? & ? & ?)|(? & [?|?] & ? & ? & ?)]
      | H : ran (updateExistingCustomer _ _ _ _) _ _ |- _ =>
          apply updateExistingCustomer_ran in H;
          destruct H as [(? & ? & ?)|(? & [?|?] & ? & ? & ?)]
      | H : ran (resolveCompany _ _ _) _ _ |- _ =>
          apply resolveCompany_ran in H;
          destruct H as [(? & ? & ?)|(? & [?|?] & ? & ? & ? & ?)]
      | H : ran (createOrReuseCompany _ _ _ _ _ _) _ _ |- _ =>
          apply createOrReuseCompany_ran in H;
          destruct H as [(? & ? & ? & ?)|([?|?] & ? & ? & ?)]
      | H : ran (setCompanyEmailMetafield _ _ _ _ _) _ _ |- _ =>
          apply setCompanyEmailMetafield_ran in H; destruct H as [? ?]
      | H : ran (assignAddress _ _ _ _) _ _ |- _ =>
          apply assignAddress_ran in H; destruct H as [? ?]
      end ].

(** Facts about the calls of the customer and the linking stage. *)
Ltac stage_emits :=
  repeat match goal with
         | H : ran (createOrReuseCustomer _ ?g ?fd ?ec) _ ?l |- _ =>
             lazymatch goal with
             | _ : (forall e, In e l -> customerOps (fst e) = true /\ ec = None) |- _ => fail
             | _ =>
                 assert (forall e, In e l -> customerOps (fst e) = true /\ ec = None)
                   by exact (ran_emits _ _ _ _ (createOrReuseCustomer_emits g fd ec) H)
             end
         | H : ran (linkCustomer _ ?g ?ec ?eco ?c ?u) _ ?l |- _ =>
             lazymatch goal with
             | _ : (forall e, In e l -> linkOps (fst e) = true) |- _ => fail
             | _ =>
                 assert (forall e, In e l -> linkOps (fst e) = true)
                   by exact (ran_emits _ _ _ _ (linkCustomer_emits g ec eco c u) H)
             end
         end.

(** Splits the membership of an event in a log made of stage logs. *)
Ltac in_log H :=
  repeat match type of H with
         | In _ (_ ++ _) => apply in_app_or in H; destruct H as [H|H]
         | In _ (_ :: _) => destruct H as [H|H]
         | In _ [] => destruct H
         end.

(** Closes a case in which an event would sit in a stage that cannot
    have made it. *)
Ltac wrong_stage H :=
  solve [ discriminate H
        | match goal with
          | F : forall e, In e ?l -> _ |- _ =>
              match type of H with
              | In _ l =>
                  specialize (F _ H); cbn [fst] in F;
                  match type of F with
                  | _ /\ _ => destruct F as [F ?]
                  | _ => idtac
                  end;
                  first [ discriminate | congruence ]
              end
          end ].

(** ** The anatomy of a run *)

Section PreStages.
Context {js : JsString}.
Context {World : Type}.
Variable graphql : Client World.
Variable stamp : string.

Lemma preEvent_intro {A} formData ec cid (m : M World A) c l :
  emits (fun r => preFact formData ec cid r /\ isIdentityQuery r = false) m ->
  ran m c l -> forall e, In e l -> preEvent formData ec cid e.
Proof.
  intros Hm Hr e He. destruct (ran_emits _ _ _ _ Hm Hr e He) as [H1 H2].
  split; [exact H1|]. intros q j ->. discriminate H2.
Qed.

Lemma resolveIdentity_pre formData ec cid c l :
  ran (resolveIdentity World graphql formData) c l ->
  (forall x, c = Normal x -> x = ec) ->
  forall e, In e l -> preEvent formData ec cid e.
Proof.
  intros H Hc e He. apply resolveIdentity_ran in H.
  destruct H as [(_ & -> & _)|(userEmail & reply & _ & -> & ->)]; [destruct He|].
  destruct He as [<-|[]]. split.
  - repeat split; simpl; try discriminate.
  - intros q j E. destruct reply as [m|j']; simpl in E; [discriminate|].
    injection E as _ <-. apply Hc. reflexivity.
Qed.

Lemma resolveIdentity_email formData ec l :
  ran (resolveIdentity World graphql formData) (Normal ec) l ->
  get formData "userEmail" <> None.
Proof.
  intros H. apply resolveIdentity_ran in H.
  destruct H as [(_ & _ & E)|(userEmail & reply & -> & _)]; discriminate.
Qed.

Lemma updateExistingCustomer_pre formData ec cid c l :
  ran (updateExistingCustomer World graphql formData ec) c l ->
  forall e, In e l -> preEvent formData ec cid e.
Proof.
  apply preEvent_intro.
  eapply emits_weaken; [|apply updateExistingCustomer_emits].
  intros r (x & -> & ->). repeat split; try discriminate.
  intros input [= <-]. eauto.
Qed.

Lemma resolveCompany_pre formData ec cid c l :
  ran (resolveCompany World graphql formData) c l ->
  forall e, In e l -> preEvent formData ec cid e.
Proof.
  apply preEvent_intro.
  eapply emits_weaken; [|apply resolveCompany_emits].
  intros r ->. repeat split; try discriminate.
Qed.

Lemma createOrReuseCompany_pre formData ec ecomp cid c l :
  ran (createOrReuseCompany World graphql stamp formData ec ecomp) c l ->
  forall e, In e l -> preEvent formData ec cid e.
Proof.
  apply preEvent_intro.
  eapply emits_weaken; [|apply createOrReuseCompany_emits].
  intros r [_ ->]. repeat split; try discriminate.
Qed.

Lemma setCompanyEmailMetafield_pre formData ec ecomp cid c l :
  ran (setCompanyEmailMetafield World graphql formData ecomp cid) c l ->
  forall e, In e l -> preEvent formData ec cid e.
Proof.
  apply preEvent_intro.
  eapply emits_weaken; [|apply setCompanyEmailMetafield_emits].
  intros r [_ H]. destruct r; try discriminate H. repeat split; try discriminate.
Qed.

Lemma assignAddress_pre formData ec cid c l :
  ran (assignAddress World graphql formData cid) c l ->
  forall e, In e l -> preEvent formData ec cid e.
Proof.
  apply preEvent_intro.
  eapply emits_weaken; [|apply assignAddress_emits].
  intros r [H1 H2]. destruct r; try discriminate H1; repeat split; try discriminate; auto.
Qed.

End PreStages.

(** Turns the runs of the stages before the customer stage into what
    they called. *)
Ltac pre_facts fd ec cid :=
  repeat match goal with
         | H : ran (resolveIdentity _ ?g _) _ ?l |- _ =>
             assert (forall e, In e l -> preEvent fd ec cid e)
               by (apply (resolveIdentity_pre g fd ec cid _ _ H);
                   first [ intros ? [= ->]; reflexivity | intros ? D; discriminate D ]);
             clear H
         | H : ran (updateExistingCustomer _ ?g _ _) _ ?l |- _ =>
             assert (forall e, In e l -> preEvent fd ec cid e)
               by exact (updateExistingCustomer_pre g fd ec cid _ _ H);
             clear H
         | H : ran (resolveCompany _ ?g _) _ ?l |- _ =>
             assert (forall e, In e l -> preEvent fd ec cid e)
               by exact (resolveCompany_pre g fd ec cid _ _ H);
             clear H
         | H : ran (createOrReuseCompany _ ?g ?st _ _ ?ecomp) _ ?l |- _ =>
             assert (forall e, In e l -> preEvent fd ec cid e)
               by exact (createOrReuseCompany_pre g st fd ec ecomp cid _ _ H);
             clear H
         | H : ran (setCompanyEmailMetafield _ ?g _ ?ecomp _) _ ?l |- _ =>
             assert (forall e, In e l -> preEvent fd ec cid e)
               by exact (setCompanyEmailMetafield_pre g fd ec ecomp cid _ _ H);
             clear H
         | H : ran (assignAddress _ ?g _ _) _ ?l |- _ =>
             assert (forall e, In e l -> preEvent fd ec cid e)
               by exact (assignAddress_pre g fd ec cid _ _ H);
             clear H
         end.

Section Anatomy.
Context {js : JsString}.
Context {World : Type}.
Variable graphql : Client World.
Variable stamp : string.

(** Every run of the workflow is a run of the stages before the customer
    stage, followed, when they all completed, by a run of the customer
    stage and, when that completed, by a run of the linking stage. *)
Lemma workflow_anatomy formData c l :
  ran (workflow World graphql stamp formData) c l ->
  exists pre post existingCustomer companyId,
    l = (pre ++ post)%list /\
    (forall e, In e pre -> preEvent formData existingCustomer companyId e) /\
    ((post = [] /\ forall h, c <> Normal h) \/
     exists existingCompany c7 l7 c8 l8,
       get formData "userEmail" <> None /\
       post = (l7 ++ l8)%list /\
       ran (createOrReuseCustomer World graphql formData existingCustomer) c7 l7 /\
       (forall customer, c7 = Normal customer ->
          ran (linkCustomer World graphql existingCustomer existingCompany companyId
                 (fst customer)) c8 l8) /\
       ((forall customer, c7 <> Normal customer) -> l8 = []) /\
       c = workflowEnd companyId c7 c8).
Proof.
  unfold workflow. intros H. ran_inv.
  (* the customer stage was reached *)
  all: try match goal with
       | H7 : ran (createOrReuseCustomer _ _ _ ?ec) ?c7 ?l7,
         HA : ran (assignAddress _ _ _ ?cid) _ _,
         H0 : ran (resolveIdentity _ _ _) _ ?a,
         H1 : ran (updateExistingCustomer _ _ _ _) _ ?b,
         H2 : ran (resolveCompany _ _ _) (Normal ?ecomp) ?c,
         H3 : ran (createOrReuseCompany _ _ _ _ _ _) _ ?d,
         H4 : ran (setCompanyEmailMetafield _ _ _ _ _) _ ?e |- _ =>
           match type of HA with
           | ran _ _ ?f =>
               pose proof (resolveIdentity_email _ _ _ _ H0) as Hemail;
               pre_facts formData ec cid;
               exists (a ++ b ++ c ++ d ++ e ++ f)%list;
               match goal with
               | H8 : ran (linkCustomer _ _ _ _ _ _) ?c8 ?l8 |- _ =>
                   exists (l7 ++ l8)%list, ec, cid; split;
                   [ rewrite <- ?app_assoc, ?app_nil_r; reflexivity |];
                   split;
                   [ intros ev Hev; in_log Hev; auto |];
                   right; exists ecomp, c7, l7, c8, l8
               | _ =>
                   exists (l7 ++ [])%list, ec, cid; split;
                   [ rewrite <- ?app_assoc, ?app_nil_r; reflexivity |];
                   split;
                   [ intros ev Hev; in_log Hev; auto |];
                   right; exists ecomp, c7, l7, (Normal tt), []
               end
           end
       end.
  all: try solve [ repeat split; auto; try discriminate;
                   try (intros ? [= <-]; assumption);
                   try (intros ? E; discriminate E);
                   try (intros Hn; exfalso; eapply Hn; reflexivity) ].
  (* the run ended before the customer stage *)
  all: let ec := lazymatch goal with
                 | H : ran (updateExistingCustomer _ _ _ ?x) _ _ |- _ => constr:(x)
                 | _ => constr:(@None Customer)
                 end in
       let cid := lazymatch goal with
                  | H : ran (assignAddress _ _ _ ?x) _ _ |- _ => constr:(x)
                  | H : ran (setCompanyEmailMetafield _ _ _ _ ?x) _ _ |- _ => constr:(x)
                  | _ => constr:(@None ID)
                  end in
       pre_facts formData ec cid;
       match goal with
       | |- exists pre post _ _, ?l = _ /\ _ => exists l, [], ec, cid
       end;
       split; [rewrite app_nil_r; reflexivity|];
       split; [intros ev Hev; in_log Hev; auto | left; split; [reflexivity|discriminate]].
Qed.

(** A run of the handler makes no call, or is a run of the workflow. *)
Lemma handler_workflow request c l :
  ran (handler World graphql stamp request) c l ->
  (l = [] /\ forall h, c <> Normal h) \/
  ran (workflow World graphql stamp (req_formData request)) c l.
Proof.
  unfold handler. intros H. ran_inv.
  - apply loadAdmin_ran in H. destruct H as [-> _]. right. exact H0.
  - apply loadAdmin_ran in H. destruct H as [-> _]. left. split; [reflexivity|discriminate].
  - apply loadAdmin_ran in H. destruct H as [-> _]. left. split; [reflexivity|discriminate].
Qed.

End Anatomy.

(** ** The customer stage *)

Lemma filterEdges_Throw {js : JsString} userEmail edges m :
  filterEdges userEmail edges = Throw m ->
  m = typeError "toLowerCase" /\ exists x, In x edges /\ cu_email x = None.
Proof.
  induction edges as [|c rest IH]; simpl; [discriminate|].
  unfold emailMatches. destruct (cu_email c) as [e|] eqn:E.
  - destruct (filterEdges userEmail rest) as [kept|m'|h]; try discriminate.
    intros [= <-]. destruct (IH eq_refl) as (-> & x & Hx & Hn). eauto.
  - intros [= <-]. eauto.
Qed.

Lemma findEdge_Throw {js : JsString} userEmail edges m :
  findEdge userEmail edges = Throw m ->
  m = typeError "toLowerCase" /\ exists x, In x edges /\ cu_email x = None.
Proof.
  induction edges as [|c rest IH]; simpl; [discriminate|].
  unfold emailMatches. destruct (cu_email c) as [e|] eqn:E.
  - destruct (String.eqb (toLowerCase e) (normalizedEmail userEmail)); [discriminate|].
    intros H. destruct (IH H) as (-> & x & Hx & Hn). eauto.
  - intros [= <-]. eauto.
Qed.

Lemma threeTier_search {js : JsString} userEmail l e :
  threeTier userEmail l -> In e l -> isSearch (fst e) = true.
Proof.
  intros H He. destruct H; simpl in He;
    repeat match goal with H : _ \/ _ |- _ => destruct H end;
    subst; simpl; auto; contradiction.
Qed.

Lemma returnedCustomer_located {js : JsString} userEmail x l :
  threeTier userEmail l -> returnedCustomer x l -> located x l.
Proof.
  intros Ht (q & edges & Hin & Hx). exists q, edges. repeat split; auto.
  exact (threeTier_search _ _ _ Ht Hin).
Qed.

Lemma lastThrew_app m a b : lastThrew m b -> lastThrew m (a ++ b).
Proof.
  intros (before & q & -> & Hq). exists (a ++ before)%list, q.
  split; [apply app_assoc|exact Hq].
Qed.

Lemma find_firstWith {A} (f : A -> bool) l x :
  find f l = Some x -> firstWith f x l.
Proof.
  induction l as [|y l IH]; simpl; [discriminate|].
  destruct (f y) eqn:E.
  - intros [= <-]. exists [], l. repeat split; auto. intros ? [].
  - intros H. destruct (IH H) as (before & after & -> & Hb & Hx).
    exists (y :: before), after. repeat split; auto.
    intros z [<-|Hz]; auto.
Qed.

Lemma firstWith_find {A} (f : A -> bool) l x :
  firstWith f x l -> find f l = Some x.
Proof.
  intros (before & after & -> & Hb & Hx).
  induction before as [|y before IH]; simpl.
  - rewrite Hx. reflexivity.
  - rewrite (Hb y (or_introl eq_refl)). apply IH. intros z Hz. apply Hb. right. exact Hz.
Qed.

Lemma findEdge_first {js : JsString} userEmail edges found :
  findEdge userEmail edges = Normal (Some found) -> firstMatch userEmail found edges.
Proof.
  induction edges as [|c rest IH]; simpl; [discriminate|].
  destruct (emailMatches userEmail c) as [[|]|] eqn:E; try discriminate.
  - intros [= <-]. exists [], rest. repeat split; auto. intros ? [].
  - intros H. destruct (IH H) as (before & after & -> & Hb & Hx).
    exists (c :: before), after. repeat split; auto.
    intros z [<-|Hz]; auto.
Qed.

Lemma filterEdges_first {js : JsString} userEmail edges x kept :
  filterEdges userEmail edges = Normal (x :: kept) -> firstMatch userEmail x edges.
Proof.
  induction edges as [|c rest IH]; simpl; [discriminate|].
  destruct (emailMatches userEmail c) as [[|]|] eqn:E; try discriminate.
  - destruct (filterEdges userEmail rest) as [k|m|h]; try discriminate.
    intros [= <- <-]. exists [], rest. repeat split; auto. intros ? [].
  - destruct (filterEdges userEmail rest) as [k|m|h] eqn:F; try discriminate.
    intros [= ->]. destruct (IH eq_refl) as (before & after & -> & Hb & Hx).
    exists (c :: before), after. repeat split; auto.
    intros z [<-|Hz]; auto.
Qed.

Lemma filterEdges_head {js : JsString} userEmail edges x kept :
  filterEdges userEmail edges = Normal (x :: kept) ->
  findEdge userEmail (x :: kept) = Normal (Some x).
Proof.
  intros H. pose proof (proj1 (filterEdges_Normal _ _ _ H x) (or_introl eq_refl)) as [_ Hm].
  simpl. rewrite Hm. reflexivity.
Qed.

Section FallbackSearch.
Context {js : JsString}.
Context {World : Type}.
Variable graphql : Client World.
Variable stamp : string.

(** The customer that the final [find] picks is the first one, in the
    reply of the last search made, whose email passes the comparison. *)
Lemma fallbackSearch_first userEmail es found l :
  ran (fallbackSearch World graphql userEmail) (Normal (Some es)) l ->
  findEdge userEmail es = Normal (Some found) ->
  exists earlier q edges,
    l = (earlier ++ [(q, Json (RCustomers {| customers_edges := Some edges |}))])%list /\
    firstMatch userEmail found edges.
Proof.
  unfold fallbackSearch. intros H Hf. ran_inv.
  all: cbn [app mapReply response resp_of] in *.
  all: repeat match goal with
              | j : CustomersJson |- _ => destruct j as [?edges]
              end.
  all: cbn [customers_edges] in *.
  all: subst.
  all: try match goal with
           | H : Normal _ = match ?x with _ => _ end |- _ =>
               destruct x as [?all|]; [symmetry in H|discriminate H]
           end.
  all: try match goal with
           | H : filterEdges _ _ = Normal (?x :: ?kept) |- _ =>
               rewrite (filterEdges_head _ _ _ _ H) in Hf; injection Hf as <-;
               apply filterEdges_first in H
           end.
  all: try (apply findEdge_first in Hf).
  all: try match goal with
           | H : noEdges ?x = true, Hf : firstMatch _ _ _ |- _ =>
               match type of Hf with
               | firstMatch _ _ ?es =>
                   match x with
                   | Some es =>
                       exfalso; destruct Hf as (before & after & E & _);
                       rewrite E in H; destruct before; discriminate H
                   end
               end
           end.
  all: first [ eexists [], _, _; split; [reflexivity|eassumption]
             | eexists [_], _, _; split; [reflexivity|eassumption]
             | eexists [_; _], _, _; split; [reflexivity|eassumption]
             | idtac ].
Qed.

(** The search hands every returned customer whose email matches on to
    the final [find]. *)
Lemma fallbackSearch_complete userEmail edges l x :
  ran (fallbackSearch World graphql userEmail) (Normal edges) l ->
  returnedCustomer x l -> emailMatches userEmail x = Some true ->
  exists es, edges = Some es /\ In x es.
Proof.
  unfold fallbackSearch. intros H (q & xs & Hin & Hx) Hm. ran_inv.
  all: cbn [app mapReply response] in *.
  all: in_log Hin.
  all: try discriminate Hin.
  all: injection Hin as ? Hin; subst.
  all: cbn [customers_edges mapReply] in *.
  all: try match goal with
           | H : noEdges (Some ?xs) = true |- _ =>
               exfalso; exact (noEdges_true _ _ _ H eq_refl Hx)
           end.
  all: try solve [eauto].
  all: try match goal with
           | H : Normal _ = filterEdges _ _ |- _ =>
               symmetry in H;
               pose proof (proj2 (filterEdges_Normal _ _ _ H x) (conj Hx Hm)) as Hk
           end.
  all: try solve [destruct Hk].
  all: eauto.
Qed.

(** The search throws only when a query does, or on a returned customer
    without an email. *)
Lemma fallbackSearch_throw userEmail m l :
  ran (fallbackSearch World graphql userEmail) (Throw m) l ->
  lastThrew m l \/
  (m = typeError "toLowerCase" /\ exists x, returnedCustomer x l /\ cu_email x = None).
Proof.
  unfold fallbackSearch. intros H. ran_inv.
  all: cbn [app mapReply response] in *.
  all: try solve [ left;
                   first [ eexists [], _; split; reflexivity
                         | eexists [_], _; split; reflexivity
                         | eexists [_; _], _; split; reflexivity ] ].
  all: right.
  all: match goal with
       | H : Throw _ = match customers_edges ?j with _ => _ end |- _ =>
           destruct j as [[edges|]]; cbn [customers_edges] in H; [|discriminate H];
           symmetry in H; apply filterEdges_Throw in H;
           destruct H as (-> & x & Hx & Hn)
       end.
  all: split; [reflexivity|]; exists x; split; [|assumption].
  all: eexists _, edges; split; [|eassumption]; simpl; eauto.
Qed.

End FallbackSearch.

Section FallbackRun.
Context {js : JsString}.
Context {World : Type}.
Variable graphql : Client World.
Variable stamp : string.

(** The email-conflict fallback: the three-tier search, then either no
    update (no returned customer passes the comparison, or an exception),
    or the update of a returned customer that passes it. *)
Lemma updateFoundCustomer_run formData userEmail errorMessage c l :
  ran (updateFoundCustomer World graphql formData userEmail errorMessage) c l ->
  exists searches,
    threeTier userEmail searches /\
    ((l = searches /\ c = Normal (Null, Some errorMessage) /\
      forall x, located x searches -> emailMatches userEmail x <> Some true) \/
     (l = searches /\ exists m, c = Throw m /\
        (lastThrew m searches \/
         (m = typeError "toLowerCase" /\
          exists x, located x searches /\ cu_email x = None))) \/
     (exists found reply,
        l = (searches ++ [(UpdateCustomer (fallbackCustomerInput formData found),
                           mapReply RCustomerUpdate reply)])%list /\
        located found searches /\
        emailMatches userEmail found = Some true /\
        foundBy userEmail found searches /\
        c = updateOutcome found reply)).
Proof.
  unfold updateFoundCustomer. intros H. ran_inv.
  all: try match goal with
           | H : ran (fallbackSearch _ _ _) (Return _) _ |- _ =>
               exfalso; eapply ran_noReturn; [apply fallbackSearch_noReturn|exact H]
           end.
  all: match goal with
       | H : ran (fallbackSearch _ _ _) _ _ |- _ =>
           pose proof (proj1 (fallbackSearch_ran _ _ _ _ H)) as Ht;
           pose proof (proj2 (fallbackSearch_ran _ _ _ _ H)) as Hr
       end.
  all: eexists; split; [eassumption|].
  all: cbn [app] in *; rewrite ?app_nil_r.
  (* the search itself threw *)
  all: try match goal with
           | H : ran (fallbackSearch _ _ _) (Throw ?m) _ |- _ =>
               right; left; split; [reflexivity|]; exists m; split; [reflexivity|];
               destruct (fallbackSearch_throw _ _ _ _ H) as [Hq|(-> & noEmail & Hx & Hn)];
               [ left; exact Hq
               | right; split; [reflexivity|]; exists noEmail; split;
                 [ exact (returnedCustomer_located _ _ _ Ht Hx) | exact Hn ] ]
           end.
  all: match goal with
       | H0 : _ = match ?x with _ => _ end |- _ =>
           destruct x as [es|]; symmetry in H0; try discriminate H0
       end.
  (* the final [find] *)
  all: try solve [exfalso; eapply findEdge_noReturn; eauto].
  all: try match goal with
           | H0 : findEdge _ _ = Throw ?m |- _ =>
               right; left; split; [reflexivity|]; exists m; split; [reflexivity|];
               apply findEdge_Throw in H0; destruct H0 as (-> & noEmail & Hx & Hn);
               right; split; [reflexivity|]; exists noEmail; split;
               [ exact (returnedCustomer_located _ _ _ Ht (Hr _ _ eq_refl Hx)) | exact Hn ]
           end.
  all: try match goal with
           | H0 : findEdge _ _ = Normal None |- _ =>
               left; split; [reflexivity|]; split; [reflexivity|];
               intros other (q & xs & _ & Hin & Hx) Hm;
               destruct (fallbackSearch_complete _ _ _ _ other H
                           (ex_intro _ q (ex_intro _ xs (conj Hin Hx))) Hm)
                 as (es' & [= <-] & Hes);
               pose proof (findEdge_None _ _ H0 _ Hes); congruence
           end.
  all: try match goal with
           | |- _ = _ /\ Normal (Null, Some _) = Normal (Null, Some _) /\ _ \/ _ =>
               left; split; [reflexivity|]; split; [reflexivity|];
               intros other (q & xs & _ & Hin & Hx) Hm;
               destruct (fallbackSearch_complete _ _ _ _ other H
                           (ex_intro _ q (ex_intro _ xs (conj Hin Hx))) Hm)
                 as (es' & [=] & _)
           end.
  all: match goal with
       | H0 : findEdge _ _ = Normal (Some _) |- _ =>
           pose proof (fallbackSearch_first _ _ _ _ _ H H0) as Hfirst;
           apply findEdge_Some in H0; destruct H0 as [Hin Hm]
       end.
  all: right; right; do 2 eexists; split; [reflexivity|];
    split; [exact (returnedCustomer_located _ _ _ Ht (Hr _ _ eq_refl Hin))|];
    split; [assumption|]; split; [exact Hfirst|]; unfold updateOutcome;
    repeat match goal with
           | E : ?x = _ |- context [match ?x with _ => _ end] => rewrite E
           end; reflexivity.
Qed.
End FallbackRun.

Section CreationRun.
Context {js : JsString}.
Context {World : Type}.
Variable graphql : Client World.
Variable stamp : string.

(** Linking of a newly created (or fallback-updated) customer: one
    assignment call when the company was reused, none otherwise. *)
Lemma linkCustomer_new_ran existingCompany companyId customerId c l :
  ran (linkCustomer World graphql None existingCompany companyId customerId) c l ->
  (l = [] /\ c = Normal tt) \/
  (exists reused company customer reply,
     existingCompany = Some reused /\
     companyId = Some company /\ customerId = Value customer /\
     nonEmpty company = true /\ nonEmpty customer = true /\
     l = [(AssignNewCustomerAsContact company customer, mapReply RAssignContact reply)] /\
     c = match reply with Threw e => Throw e | Json _ => Normal tt end).
Proof.
  unfold linkCustomer. intros H. ran_inv.
  all: try solve [left; auto].
  all: match goal with
       | E : _ && _ = true |- _ => apply andb_prop in E; destruct E
       end.
  all: right; do 4 eexists; repeat split; try reflexivity; try assumption.
Qed.

Lemma updateFoundCustomer_emits formData userEmail errorMessage :
  emits (fun r => customerOps r = true /\ isCreateCustomer r = false)
        (updateFoundCustomer World graphql formData userEmail errorMessage).
Proof. unfold updateFoundCustomer, fallbackSearch. emits_tac. Qed.

(** After [customerCreate], the customer stage only searches and updates. *)
Lemma createOrReuseCustomer_rest formData c7 first rest :
  ran (createOrReuseCustomer World graphql formData None) c7 (first :: rest) ->
  forall e, In e rest -> customerOps (fst e) = true /\ isCreateCustomer (fst e) = false.
Proof.
  intros H. apply createOrReuseCustomer_ran in H.
  destruct H as [(existing & E & _)|(_ & reply & rest' & E & H)]; [discriminate E|].
  injection E as _ <-.
  destruct reply as [m|j]; [destruct H as [-> _]; intros e []|].
  destruct (crj_errors j); [destruct H as [-> _]; intros e []|].
  destruct (crj_userErrors j) as [[|u us]|]; try (destruct H as [-> _]; intros e []).
  destruct (includes (ue_message u) "Email has already been taken");
    [|destruct H as [-> _]; intros e []].
  destruct (get formData "userEmail"); [|destruct H as [-> _]; intros e []].
  exact (ran_emits _ _ _ _ (updateFoundCustomer_emits _ _ _) H).
Qed.

(** A run that issues [customerCreate]: no customer existed, the stages
    before made no customer update, and the creation opens the customer
    stage, which is followed by the linking stage only. *)
Lemma creation_run request c l input reply :
  ran (handler World graphql stamp request) c l ->
  In (CreateCustomer input, reply) l ->
  exists pre rest link existingCompany companyId c7 c8 reply',
    l = (pre ++ ((CreateCustomer (newCustomerInput (req_formData request)),
                  mapReply RCustomerCreate reply') :: rest) ++ link)%list /\
    get (req_formData request) "userEmail" <> None /\
    input = newCustomerInput (req_formData request) /\
    reply = mapReply RCustomerCreate reply' /\
    (forall e, In e pre -> preEvent (req_formData request) None companyId e) /\
    ran (createOrReuseCustomer World graphql (req_formData request) None) c7
        ((CreateCustomer (newCustomerInput (req_formData request)),
          mapReply RCustomerCreate reply') :: rest) /\
    (forall e, In e rest -> customerOps (fst e) = true /\ isCreateCustomer (fst e) = false) /\
    (forall customer, c7 = Normal customer ->
       ran (linkCustomer World graphql None existingCompany companyId (fst customer)) c8 link) /\
    ((forall customer, c7 <> Normal customer) -> link = []) /\
    c = workflowEnd companyId c7 c8.
Proof.
  intros Hran Hev.
  apply handler_workflow in Hran. destruct Hran as [[-> _]|Hran]; [destruct Hev|].
  apply workflow_anatomy in Hran.
  destruct Hran as (pre & post & ec & cid & -> & Hpre & Hpost).
  assert (Hlink : forall ecomp u c8 l8 e,
             ran (linkCustomer World graphql ec ecomp cid u) c8 l8 ->
             In e l8 -> linkOps (fst e) = true).
  { intros ecomp u c8 l8 e H. exact (ran_emits _ _ _ _ (linkCustomer_emits _ _ _ _ _) H e). }
  apply in_app_or in Hev. destruct Hev as [Hev|Hev].
  { destruct (Hpre _ Hev) as [[H _] _]. discriminate H. }
  destruct Hpost as [[-> _]|(ecomp & c7 & l7 & c8 & l8 & Hemail & -> & H7 & H8 & Hn & ->)];
    [destruct Hev|].
  pose proof H7 as H7'. apply createOrReuseCustomer_ran in H7'.
  destruct H7' as [(existing & -> & -> & ->)|(-> & reply' & rest & -> & Hm)].
  { simpl in Hev. specialize (H8 _ eq_refl).
    pose proof (Hlink _ _ _ _ _ H8 Hev) as F. discriminate F. }
  pose proof (createOrReuseCustomer_rest _ _ _ _ H7) as Hrest.
  assert (Hhead : input = newCustomerInput (req_formData request) /\
                  reply = mapReply RCustomerCreate reply').
  { apply in_app_or in Hev. destruct Hev as [[Hev|Hev]|Hev].
    - injection Hev as <- <-. auto.
    - destruct (Hrest _ Hev) as [_ F]. discriminate F.
    - destruct c7 as [customer|m|h].
      + pose proof (Hlink _ _ _ _ _ (H8 _ eq_refl) Hev) as F. discriminate F.
      + rewrite Hn in Hev; [destruct Hev|discriminate].
      + rewrite Hn in Hev; [destruct Hev|discriminate]. }
  destruct Hhead as [-> ->].
  exists pre, rest, l8, ecomp, cid, c7, c8, reply'.
  split; [reflexivity|]. split; [exact Hemail|]. do 2 (split; [reflexivity|]).
  split; [exact Hpre|]. split; [exact H7|]. split; [exact Hrest|].
  split; [exact H8|]. split; [exact Hn|reflexivity].
Qed.
End CreationRun.

Section ConflictRun.
Context {js : JsString}.
Context {World : Type}.
Variable graphql : Client World.
Variable stamp : string.

Lemma preEvent_no_update formData companyId e :
  preEvent formData None companyId e ->
  preOps (fst e) = true /\ isUpdateCustomer (fst e) = false /\ isSearch (fst e) = false.
Proof.
  intros [(H1 & H2 & _) _]. split; [exact H1|].
  destruct e as [[] reply]; simpl in *; try discriminate; auto.
  destruct (H2 _ eq_refl) as (x & E & _). discriminate E.
Qed.

(** The run after [customerCreate] was refused with a first user error
    that says the email is taken. *)
Lemma conflict_run request w input j e es :
  In (CreateCustomer input, Json (RCustomerCreate j))
     (snd (action World graphql stamp request w)) ->
  crj_errors j = None -> crj_userErrors j = Some (e :: es) ->
  includes (ue_message e) "Email has already been taken" = true ->
  exists userEmail before searches after companyId,
    get (req_formData request) "userEmail" = Some userEmail /\
    input = newCustomerInput (req_formData request) /\
    snd (action World graphql stamp request w) =
      (before ++ (CreateCustomer input, Json (RCustomerCreate j)) :: searches ++ after)%list /\
    (forall ev, In ev before ->
       preOps (fst ev) = true /\ isUpdateCustomer (fst ev) = false /\
       isSearch (fst ev) = false) /\
    threeTier userEmail searches /\
    ((after = [] /\
      (forall x, located x searches -> emailMatches userEmail x <> Some true) /\
      fst (action World graphql stamp request w) =
        JsonResult (aggregate companyId Null (Some (ue_message e)))) \/
     (after = [] /\
      exists m, fst (action World graphql stamp request w) = internalError m /\
        (lastThrew m searches \/
         (m = typeError "toLowerCase" /\
          exists x, located x searches /\ cu_email x = None))) \/
     (exists found reply link,
        after = (UpdateCustomer (fallbackCustomerInput (req_formData request) found),
                 mapReply RCustomerUpdate reply) :: link /\
        located found searches /\
        emailMatches userEmail found = Some true /\
        foundBy userEmail found searches /\
        afterFallbackUpdate companyId found reply link
          (fst (action World graphql stamp request w)))).
Proof.
  intros Hev Herr Hue Hinc.
  destruct (action_ran graphql stamp request w) as (c & Hran & Hans).
  rewrite Hans. clear Hans.
  set (l := snd (action World graphql stamp request w)) in *. clearbody l.
  destruct (creation_run _ _ _ _ _ _ _ Hran Hev)
    as (pre & rest & link & ecomp & cid & c7 & c8 & reply' & -> & Hemail & -> & Hrep &
        Hpre & H7 & _ & H8 & Hn & ->).
  destruct reply' as [m|j']; [discriminate Hrep|].
  injection Hrep as <-.
  apply createOrReuseCustomer_ran in H7.
  destruct H7 as [(existing & E & _)|(_ & reply & rest' & E & H)]; [discriminate E|].
  injection E as E1 <-.
  destruct reply as [m|j']; [discriminate E1|]. injection E1 as <-.
  rewrite Herr, Hue, Hinc in H.
  destruct (get (req_formData request) "userEmail") as [userEmail|] eqn:Hget;
    [|congruence].
  apply updateFoundCustomer_run in H.
  destruct H as (searches & Ht & H).
  exists userEmail, pre, searches.
  destruct H as [(-> & -> & Hno)|[(-> & m & -> & Hm)|(found & reply & -> & Hloc & Hmatch & Hfirst & ->)]].
  - (* no returned customer passes the comparison *)
    specialize (H8 _ eq_refl). cbn [fst] in H8.
    apply linkCustomer_new_ran in H8.
    destruct H8 as [[-> ->]|(? & ? & ? & ? & _ & _ & E & _)]; [|discriminate E].
    exists [], cid. split; [reflexivity|]. split; [reflexivity|].
    split; [reflexivity|].
    split; [intros ev Hin; exact (preEvent_no_update _ _ _ (Hpre _ Hin))|].
    split; [exact Ht|]. left. repeat split; auto.
  - (* an exception *)
    rewrite Hn by discriminate.
    exists [], cid. split; [reflexivity|]. split; [reflexivity|].
    split; [reflexivity|].
    split; [intros ev Hin; exact (preEvent_no_update _ _ _ (Hpre _ Hin))|].
    split; [exact Ht|]. right; left. split; [reflexivity|]. exists m. split; auto.
  - (* the update of a customer that passes it *)
    exists ((UpdateCustomer (fallbackCustomerInput (req_formData request) found),
             mapReply RCustomerUpdate reply) :: link), cid.
    split; [reflexivity|]. split; [reflexivity|].
    split; [cbn [app]; rewrite <- app_assoc; reflexivity|].
    split; [intros ev Hin; exact (preEvent_no_update _ _ _ (Hpre _ Hin))|].
    split; [exact Ht|]. right; right. exists found, reply, link.
    split; [reflexivity|]. split; [exact Hloc|]. split; [exact Hmatch|].
    split; [exact Hfirst|].
    unfold afterFallbackUpdate, updateOutcome in *.
    destruct reply as [m|uj].
    + rewrite Hn by discriminate. split; reflexivity.
    + destruct (cuj_userErrors uj) as [[|u us]|];
        specialize (H8 _ eq_refl); cbn [fst] in H8;
        apply linkCustomer_new_ran in H8.
      * destruct H8 as [[-> ->]|(reused & company & cust & linked & _ & -> & [= <-] & _ & _ & -> & ->)].
        -- left. split; reflexivity.
        -- right. exists company, linked. split; [reflexivity|]. split; [reflexivity|].
           destruct linked; reflexivity.
      * destruct H8 as [[-> ->]|(? & ? & ? & ? & _ & _ & E & _)]; [|discriminate E].
        split; reflexivity.
      * destruct H8 as [[-> ->]|(reused & company & cust & linked & _ & -> & [= <-] & _ & _ & -> & ->)].
        -- left. split; reflexivity.
        -- right. exists company, linked. split; [reflexivity|]. split; [reflexivity|].
           destruct linked; reflexivity.
Qed.

End ConflictRun.

Lemma located_app x a b : located x b -> located x (a ++ b).
Proof.
  intros (q & edges & Hs & Hin & Hx). exists q, edges.
  repeat split; auto. apply in_or_app. auto.
Qed.

Lemma located_in x searches before first after :
  located x searches -> located x (before ++ first :: searches ++ after).
Proof.
  intros (q & edges & Hs & Hin & Hx). exists q, edges.
  repeat split; auto. apply in_or_app. right. right. apply in_or_app. auto.
Qed.

Lemma afterFallbackUpdate_link companyId found reply link answer :
  afterFallbackUpdate companyId found reply link answer ->
  forall ev, In ev link -> linkOps (fst ev) = true.
Proof.
  unfold afterFallbackUpdate. intros H ev Hev.
  destruct reply as [m|uj]; [destruct H as [-> _]; destruct Hev|].
  destruct (cuj_userErrors uj) as [[|u us]|].
  all: repeat match goal with
              | H : _ \/ _ |- _ => destruct H
              | H : _ /\ _ |- _ => destruct H
              | H : exists _, _ |- _ => destruct H
              end; subst; simpl in Hev;
       repeat match goal with H : _ \/ _ |- _ => destruct H end;
       subst; try contradiction; reflexivity.
Qed.

(** ** The linking stage *)

Lemma linkTrace_nonempty {js : JsString} company customer outcome l :
  linkTrace company customer outcome l ->
  l <> [] /\ (forall h, outcome <> Return h) /\
  forall ev, In ev l -> linkOps (fst ev) = true.
Proof.
  intros H. destruct H; (split; [discriminate|]); (split; [discriminate|]).
  all: intros ev Hev; simpl in Hev.
  all: repeat match goal with H : _ \/ _ |- _ => destruct H end;
    subst; try contradiction; try reflexivity.
  match goal with
  | H : roleTrace _ _ _ |- _ => destruct H; simpl in *
  end;
    repeat match goal with H : _ \/ _ |- _ => destruct H end;
    subst; try contradiction; reflexivity.
Qed.

(** ** Replies to the tax mutation *)

Section TaxReply.
Context {js : JsString}.
Context {World : Type}.
Variables g1 g2 : Client World.
Hypothesis same_reply : forall r w, isTaxUpdate r = false -> g1 r w = g2 r w.
Hypothesis same_state : forall r w, snd (g1 r w) = snd (g2 r w).

Lemma alike_refl {A} (m : M World A) : alike m m.
Proof. intros w. auto. Qed.

Lemma alike_bind {A B} (m1 m2 : M World A) (k1 k2 : A -> M World B) :
  alike m1 m2 -> (forall a, alike (k1 a) (k2 a)) -> alike (bind m1 k1) (bind m2 k2).
Proof.
  intros Hm Hk w. unfold bind. destruct (Hm w) as (Hc & Hw & Hl).
  rewrite Hc, Hw. destruct (completion (m2 w)) as [a|e|h]; simpl; auto.
  destruct (Hk a (world (m2 w))) as (Hc' & Hw' & Hl').
  repeat split; auto. unfold requests in *. rewrite !map_app.
  f_equal; assumption.
Qed.

Lemma alike_call r : isTaxUpdate r = false -> alike (call g1 r) (call g2 r).
Proof. intros H w. unfold call. rewrite (same_reply _ _ H). auto. Qed.

Lemma alike_tryCatch (m1 m2 : M World unit) :
  alike m1 m2 -> alike (tryCatch m1) (tryCatch m2).
Proof.
  intros Hm w. unfold tryCatch. destruct (Hm w) as (Hc & Hw & Hl).
  rewrite Hc. destruct (completion (m2 w)); simpl; auto.
Qed.

Lemma alike_when b (m1 m2 : M World unit) :
  alike m1 m2 -> alike (when b m1) (when b m2).
Proof. destruct b; simpl; auto using alike_refl. Qed.

(** The tax step: whatever the mutation answers, the step completes
    normally. *)
Lemma alike_setTaxId formData locationId :
  alike (setTaxId World g1 formData locationId) (setTaxId World g2 formData locationId).
Proof.
  unfold setTaxId. destruct (get formData "taxId") as [taxId|]; [|apply alike_refl].
  destruct (nonEmpty taxId && nonEmpty (trim taxId)); [|apply alike_refl].
  intros w. unfold tryCatch, bind, call.
  pose proof (same_state (SetCompanyLocationTaxId locationId (trim taxId)) w) as Hs.
  destruct (g1 (SetCompanyLocationTaxId locationId (trim taxId)) w) as [[e1|j1] w1],
           (g2 (SetCompanyLocationTaxId locationId (trim taxId)) w) as [[e2|j2] w2];
    simpl in *; subst; auto.
Qed.

End TaxReply.

Ltac alike_tac :=
  repeat first
    [ apply alike_refl
    | apply alike_setTaxId; assumption
    | apply alike_tryCatch | apply alike_when
    | apply alike_call; [assumption | reflexivity]
    | apply alike_bind; [| intros ?]
    | match goal with
      | |- alike (match ?x with _ => _ end) (match ?x with _ => _ end) => destruct x
      | |- alike (if ?x then _ else _) (if ?x then _ else _) => destruct x
      end
    | progress cbv zeta ].

Section TaxReplyWorkflow.
Context {js : JsString}.
Context {World : Type}.
Variables g1 g2 : Client World.
Variable stamp : string.
Hypothesis same_reply : forall r w, isTaxUpdate r = false -> g1 r w = g2 r w.
Hypothesis same_state : forall r w, snd (g1 r w) = snd (g2 r w).

Lemma alike_handler request :
  alike (handler World g1 stamp request) (handler World g2 stamp request).
Proof.
  unfold handler, workflow, resolveIdentity, updateExistingCustomer, resolveCompany,
    createOrReuseCompany, setCompanyEmailMetafield, assignAddress,
    createOrReuseCustomer, updateFoundCustomer, fallbackSearch, linkCustomer,
    assignLocationPermissions.
  alike_tac.
Qed.

End TaxReplyWorkflow.

Section EarlyReturn.
Context {js : JsString}.
Context {World : Type}.
Variable graphql : Client World.
Variable stamp : string.

(** The workflow leaves through [return] only before the address stage. *)
Lemma workflow_return_before_address formData h l :
  ran (workflow World graphql stamp formData) (Return h) l ->
  forall e, In e l -> addressOps (fst e) = false.
Proof.
  unfold workflow. intros H. ran_inv.
  all: stage_inv.
  all: cbn [app] in *.
  all: try solve [ intros e He; in_log He; subst; reflexivity ].
Qed.

End EarlyReturn.

Lemma withTaxReply_same_reply {World} (graphql : Client World) reply r w :
  isTaxUpdate r = false -> withTaxReply graphql reply r w = graphql r w.
Proof. destruct r; simpl; intros H; try reflexivity; discriminate H. Qed.

Lemma withTaxReply_same_state {World} (graphql : Client World) reply r w :
  snd (withTaxReply graphql reply r w) = snd (graphql r w).
Proof. destruct r; reflexivity. Qed.

(** A run that called the tax mutation had a company id, and ends with a
    successful result unless it throws. *)
Lemma tax_call_run {js : JsString} {World} (graphql : Client World) stamp request w id tax reply :
  In (SetCompanyLocationTaxId id tax, reply) (snd (action World graphql stamp request w)) ->
  (exists r, fst (action World graphql stamp request w) = JsonResult r /\
             success r = true /\ truthy (companyId r) = true) \/
  (exists m, fst (action World graphql stamp request w) = internalError m).
Proof.
  intros Hev.
  destruct (action_ran graphql stamp request w) as (c & Hran & Hans).
  rewrite Hans. clear Hans.
  set (l := snd (action World graphql stamp request w)) in *. clearbody l.
  apply handler_workflow in Hran. destruct Hran as [[-> _]|Hran]; [destruct Hev|].
  destruct c as [h|m|h].
  - left. pose proof Hran as Hpost. apply (ran_post _ _ _ _ (workflow_post graphql stamp _)) in Hpost.
    apply workflow_anatomy in Hran.
    destruct Hran as (pre & post & ec & cid & -> & Hpre & Hrest).
    destruct Hrest as [[_ Hab]|(ecomp & c7 & l7 & c8 & l8 & _ & -> & H7 & H8 & Hn & Hc)];
      [exfalso; eapply Hab; reflexivity|].
    destruct c7 as [customer|m|h7]; try discriminate Hc.
    destruct c8 as [[]|m|h8]; try discriminate Hc.
    injection Hc as ->. specialize (H8 _ eq_refl).
    assert (Hcid : truthy cid = true).
    { in_log Hev.
      - destruct (Hpre _ Hev) as [(_ & _ & H) _]. apply H. reflexivity.
      - pose proof (ran_emits _ _ _ _ (createOrReuseCustomer_emits graphql _ _) H7 _ Hev)
          as [F _]. discriminate F.
      - pose proof (ran_emits _ _ _ _ (linkCustomer_emits graphql _ _ _ _) H8 _ Hev) as F.
        discriminate F. }
    eexists. split; [reflexivity|].
    destruct (aggregate_fields cid (fst customer) (snd customer)) as (H0 & H1 & _).
    cbv zeta in *. rewrite H0, H1. auto.
  - right. exists m. reflexivity.
  - exfalso.
    pose proof (workflow_return_before_address graphql stamp _ _ _ Hran _ Hev) as F.
    discriminate F.
Qed.

(** ** Exceptions that reach the outer [catch] *)

Lemma lastThrew_single m q : guarded q = false -> lastThrew m [(q, Threw m)].
Proof. intros H. exists [], q. split; [reflexivity|exact H]. Qed.

Lemma lastThrew_cons m e l : lastThrew m l -> lastThrew m (e :: l).
Proof. exact (lastThrew_app m [e] l). Qed.

Section Escape.
Context {js : JsString}.
Context {World : Type}.
Variable graphql : Client World.
Variable stamp : string.

Lemma loadAdmin_throw request m l :
  ran (@loadAdmin World request) (Throw m) l ->
  l = [] /\ req_refererHost request = Some (Threw m).
Proof.
  intros H. split; [exact (proj1 (loadAdmin_ran _ _ _ H))|].
  unfold loadAdmin, resolveShop in H. cbv zeta in H. ran_inv.
  all: congruence.
Qed.

Lemma resolveIdentity_throw formData m l :
  ran (resolveIdentity World graphql formData) (Throw m) l ->
  (l = [] /\ get formData "userEmail" = None /\ m = typeError "toLowerCase") \/
  lastThrew m l.
Proof.
  intros H. apply resolveIdentity_ran in H.
  destruct H as [(E & -> & [= ->])|(userEmail & [e|j] & _ & -> & [= ->])].
  - left. auto.
  - right. apply lastThrew_single. reflexivity.
Qed.

Lemma updateExistingCustomer_throw formData ec m l :
  ran (updateExistingCustomer World graphql formData ec) (Throw m) l -> lastThrew m l.
Proof.
  intros H. apply updateExistingCustomer_ran in H.
  destruct H as [(_ & _ & E)|(existing & [e|j] & _ & -> & [= ->])]; [discriminate E|].
  apply lastThrew_single. reflexivity.
Qed.

Lemma resolveCompany_throw formData m l :
  ran (resolveCompany World graphql formData) (Throw m) l -> lastThrew m l.
Proof.
  intros H. apply resolveCompany_ran in H.
  destruct H as [(_ & _ & E)|(companyEmail & [e|j] & _ & _ & -> & [= ->])];
    [discriminate E|].
  apply lastThrew_single. reflexivity.
Qed.

Lemma createOrReuseCompany_throw formData ec ecomp m l :
  ran (createOrReuseCompany World graphql stamp formData ec ecomp) (Throw m) l ->
  lastThrew m l.
Proof.
  intros H. apply createOrReuseCompany_ran in H.
  destruct H as [(company & _ & _ & E)|([e|j] & _ & -> & E)]; [discriminate E| |].
  - injection E as ->. apply lastThrew_single. reflexivity.
  - destruct (ccj_errors j); [discriminate E|].
    destruct (ccj_userErrors j) as [[|u us]|]; discriminate E.
Qed.

Lemma createOrReuseCustomer_throw formData ec m l :
  ran (createOrReuseCustomer World graphql formData ec) (Throw m) l ->
  lastThrew m l \/
  (m = typeError "toLowerCase" /\ exists x, located x l /\ cu_email x = None) \/
  get formData "userEmail" = None.
Proof.
  intros H. apply createOrReuseCustomer_ran in H.
  destruct H as [(existing & _ & _ & E)|(_ & [e|j] & rest & -> & H)]; [discriminate E| |].
  - destruct H as [-> [= ->]]. left. apply lastThrew_single. reflexivity.
  - destruct (crj_errors j); [destruct H as [_ E]; discriminate E|].
    destruct (crj_userErrors j) as [[|u us]|]; try (destruct H as [_ E]; discriminate E).
    destruct (includes (ue_message u) "Email has already been taken");
      [|destruct H as [_ E]; discriminate E].
    destruct (get formData "userEmail") as [userEmail|]; [|right; right; reflexivity].
    apply updateFoundCustomer_run in H.
    destruct H as (searches & Ht &
                   [(_ & E & _)|[(-> & m' & [= <-] & Hm)|(found & [e|uj] & -> & _ & _ & _ & E)]]).
    + discriminate E.
    + destruct Hm as [Hm|(-> & x & Hx & Hn)].
      * left. apply lastThrew_cons. exact Hm.
      * right; left. split; [reflexivity|]. exists x. split; [|exact Hn].
        apply (located_app x [_]). exact Hx.
    + injection E as ->. left. apply lastThrew_cons. apply lastThrew_app.
      apply lastThrew_single. reflexivity.
    + unfold updateOutcome in E. destruct (cuj_userErrors uj) as [[|? ?]|]; discriminate E.
Qed.

Lemma linkCustomer_throw ec ecomp cid customerId m l :
  ran (linkCustomer World graphql ec ecomp cid customerId) (Throw m) l -> lastThrew m l.
Proof.
  unfold linkCustomer. intros H. ran_inv.
  all: try match goal with
           | H : ran (assignLocationPermissions _ _ _ _) _ _ |- _ =>
               apply assignLocationPermissions_ran in H; destruct H as [H _];
               discriminate H
           end.
  all: cbn [app mapReply response].
  all: first [ apply lastThrew_single; reflexivity
             | apply lastThrew_cons, lastThrew_single; reflexivity ].
Qed.

(** An exception that ends a run of the handler has one of the causes of
    [escaped]. *)
Lemma handler_escaped request m l :
  ran (handler World graphql stamp request) (Throw m) l -> escaped request m l.
Proof.
  unfold handler, workflow. intros H. ran_inv.
  all: repeat match goal with
              | H : ran (loadAdmin _) (Normal _) ?l |- _ =>
                  pose proof (proj1 (loadAdmin_ran _ _ _ H)); subst l; clear H
              | H : ran (assignAddress _ _ _ _) (Throw _) _ |- _ =>
                  apply assignAddress_ran in H; destruct H as [H _]; discriminate H
              | H : ran (setCompanyEmailMetafield _ _ _ _ _) (Throw _) _ |- _ =>
                  apply setCompanyEmailMetafield_ran in H; destruct H as [H _];
                  discriminate H
              end.
  all: cbn [app].
  all: try match goal with
           | H : ran (loadAdmin _) (Throw _) _ |- _ =>
               apply loadAdmin_throw in H; destruct H as [-> H];
               right; left; split; [reflexivity|exact H]
           end.
  all: try match goal with
           | H : ran (resolveIdentity _ _ _) (Throw _) _ |- _ =>
               apply resolveIdentity_throw in H;
               destruct H as [(-> & H1 & H2)|H];
               [ right; right; left; auto | left; exact H ]
           end.
  all: try match goal with
           | H0 : ran (resolveIdentity _ _ _) (Normal _) _,
             H : ran (createOrReuseCustomer _ _ _ _) (Throw _) _ |- _ =>
               apply resolveIdentity_email in H0;
               apply createOrReuseCustomer_throw in H;
               destruct H as [H|[(-> & noEmail & Hloc & Hnone)|H]];
               [ left; repeat apply lastThrew_app; exact H
               | right; right; right; split; [reflexivity|]; exists noEmail; split;
                 [repeat apply located_app; exact Hloc|exact Hnone]
               | contradiction ]
           end.
  all: left; repeat apply lastThrew_app.
  all: try solve [ eapply updateExistingCustomer_throw; eassumption
             | eapply resolveCompany_throw; eassumption
             | eapply createOrReuseCompany_throw; eassumption
             | eapply linkCustomer_throw; eassumption ].
Qed.

End Escape.

(** ** The calls of a run, stage by stage *)

Lemma callsOf_app f l1 l2 : callsOf f (l1 ++ l2) = (callsOf f l1 ++ callsOf f l2)%list.
Proof. apply filter_app. Qed.

Lemma callsOf_none f l : (forall e, In e l -> f (fst e) = false) -> callsOf f l = [].
Proof.
  induction l as [|e l IH]; simpl; intros H; [reflexivity|].
  rewrite (H e (or_introl eq_refl)). apply IH. intros e' He. apply H. auto.
Qed.

Lemma callsOf_all f l : (forall e, In e l -> f (fst e) = true) -> callsOf f l = l.
Proof.
  induction l as [|e l IH]; simpl; intros H; [reflexivity|].
  rewrite (H e (or_introl eq_refl)). f_equal. apply IH. intros e' He. apply H. auto.
Qed.

Section StageOps.
Context {js : JsString}.
Context {World : Type}.
Variable graphql : Client World.
Variable stamp : string.

(** The operations of each stage. *)
Lemma resolveIdentity_ops formData c l e :
  ran (resolveIdentity World graphql formData) c l -> In e l ->
  isIdentityQuery (fst e) = true.
Proof.
  intros H He. destruct (ran_emits _ _ _ _ (resolveIdentity_emits graphql _) H e He) as [q ->].
  reflexivity.
Qed.

Lemma updateExistingCustomer_ops formData ec c l e :
  ran (updateExistingCustomer World graphql formData ec) c l -> In e l ->
  isUpdateCustomer (fst e) = true.
Proof.
  intros H He.
  destruct (ran_emits _ _ _ _ (updateExistingCustomer_emits graphql _ _) H e He)
    as (x & _ & ->).
  reflexivity.
Qed.

Lemma resolveCompany_ops formData c l e :
  ran (resolveCompany World graphql formData) c l -> In e l ->
  isCompaniesQuery (fst e) = true.
Proof.
  intros H He. rewrite (ran_emits _ _ _ _ (resolveCompany_emits graphql _) H e He).
  reflexivity.
Qed.

Lemma createOrReuseCompany_ops formData ec ecomp c l e :
  ran (createOrReuseCompany World graphql stamp formData ec ecomp) c l -> In e l ->
  isCreateCompany (fst e) = true.
Proof.
  intros H He.
  destruct (ran_emits _ _ _ _ (createOrReuseCompany_emits graphql stamp _ _ _) H e He)
    as [_ ->].
  reflexivity.
Qed.

Lemma setCompanyEmailMetafield_ops formData ecomp cid c l e :
  ran (setCompanyEmailMetafield World graphql formData ecomp cid) c l -> In e l ->
  isMetafieldsSet (fst e) = true.
Proof.
  intros H He.
  destruct (ran_emits _ _ _ _ (setCompanyEmailMetafield_emits graphql _ _ _) H e He)
    as [_ F].
  exact F.
Qed.

Lemma assignAddress_ops formData cid c l e :
  ran (assignAddress World graphql formData cid) c l -> In e l ->
  addressOps (fst e) = true.
Proof.
  intros H He.
  destruct (ran_emits _ _ _ _ (assignAddress_emits graphql _ _) H e He) as [F _].
  exact F.
Qed.

Lemma createOrReuseCustomer_ops formData ec c l e :
  ran (createOrReuseCustomer World graphql formData ec) c l -> In e l ->
  customerOps (fst e) = true.
Proof.
  intros H He.
  destruct (ran_emits _ _ _ _ (createOrReuseCustomer_emits graphql _ _) H e He) as [F _].
  exact F.
Qed.

Lemma linkCustomer_ops ec ecomp cid customerId c l e :
  ran (linkCustomer World graphql ec ecomp cid customerId) c l -> In e l ->
  linkOps (fst e) = true.
Proof.
  intros H He. exact (ran_emits _ _ _ _ (linkCustomer_emits graphql _ _ _ _) H e He).
Qed.

End StageOps.

(** The class of operations of the stage that made a call. *)
Ltac stage_ops H Hin F :=
  first [ pose proof (resolveIdentity_ops _ _ _ _ _ H Hin) as F
        | pose proof (updateExistingCustomer_ops _ _ _ _ _ _ H Hin) as F
        | pose proof (resolveCompany_ops _ _ _ _ _ H Hin) as F
        | pose proof (createOrReuseCompany_ops _ _ _ _ _ _ _ _ H Hin) as F
        | pose proof (setCompanyEmailMetafield_ops _ _ _ _ _ _ _ H Hin) as F
        | pose proof (assignAddress_ops _ _ _ _ _ _ H Hin) as F
        | pose proof (createOrReuseCustomer_ops _ _ _ _ _ _ H Hin) as F
        | pose proof (linkCustomer_ops _ _ _ _ _ _ _ _ H Hin) as F ].

(** Computes the calls of class [f] of a log made of stage logs: the log
    of a stage whose operations are all in the class is kept, the log of
    a stage that has none of them vanishes.  [ops] finds the class of
    operations of a stage. *)
Ltac stage_calls_with ops :=
  rewrite ?callsOf_app;
  repeat match goal with
         | H : ran ?m _ ?l |- context [callsOf ?f ?l] =>
             first
               [ rewrite (callsOf_all f l)
                   by (let e := fresh "e" in
                       let Hin := fresh "Hin" in
                       let F := fresh "F" in
                       intros e Hin; ops H Hin F;
                       destruct e as [[] ?]; cbn in F |- *;
                       first [reflexivity | discriminate F])
               | rewrite (callsOf_none f l)
                   by (let e := fresh "e" in
                       let Hin := fresh "Hin" in
                       let F := fresh "F" in
                       intros e Hin; ops H Hin F;
                       destruct e as [[] ?]; cbn in F |- *;
                       first [reflexivity | discriminate F]) ]
         end;
  rewrite ?app_nil_l, ?app_nil_r.

Ltac stage_calls := stage_calls_with stage_ops.

(** Reads a run of the handler as the runs of its stages. *)
Ltac handler_inv H :=
  unfold handler, workflow in H; ran_inv;
  repeat match goal with
         | H : ran (loadAdmin _) _ ?l |- _ =>
             let E := fresh in
             pose proof (proj1 (loadAdmin_ran _ _ _ H)) as E; subst l; clear H
         | H : ran (linkCustomer _ _ _ _ _ _) (Return _) _ |- _ =>
             exfalso; exact (ran_noReturn _ _ _ (linkCustomer_noReturn _ _ _ _ _) H)
         | H : ran (createOrReuseCustomer _ _ _ _) (Return _) _ |- _ =>
             exfalso; exact (ran_noReturn _ _ _ (createOrReuseCustomer_noReturn _ _ _) H)
         | H : ran (assignAddress _ _ _ _) ?c _ |- _ =>
             lazymatch c with
             | Normal tt => fail
             | _ => let E := fresh in
                    pose proof (proj1 (assignAddress_ran _ _ _ _ _ H)) as E;
                    first [discriminate E | injection E as ->]
             end
         | H : ran (setCompanyEmailMetafield _ _ _ _ _) ?c _ |- _ =>
             lazymatch c with
             | Normal tt => fail
             | _ => let E := fresh in
                    pose proof (proj1 (setCompanyEmailMetafield_ran _ _ _ _ _ _ H)) as E;
                    first [discriminate E | injection E as ->]
             end
         end;
  cbn [app].

Lemma callsOf_In f l e : In e l -> f (fst e) = true -> In e (callsOf f l).
Proof. intros H1 H2. apply filter_In. auto. Qed.

Lemma callsOf_sub f l e : In e (callsOf f l) -> In e l.
Proof. intros H. apply filter_In in H. tauto. Qed.

Section ResultOfRun.
Context {js : JsString}.
Context {World : Type}.
Variable graphql : Client World.
Variable stamp : string.

(** A customer id that is [undefined] comes from a reply to
    [customerCreate] that reports no error and carries no customer. *)
Lemma createOrReuseCustomer_undefined formData ec customer l :
  ran (createOrReuseCustomer World graphql formData ec) (Normal customer) l ->
  fst customer = Undefined ->
  exists j,
    In (CreateCustomer (newCustomerInput formData), Json (RCustomerCreate j)) l /\
    crj_errors j = None /\ hasUserErrors (crj_userErrors j) = false /\
    crj_customer_id j = None.
Proof.
  intros H Hu. apply createOrReuseCustomer_ran in H.
  destruct H as [(existing & _ & _ & [= ->])|(_ & [e|j] & rest & -> & H)];
    [discriminate Hu|destruct H as [_ E]; discriminate E|].
  destruct (crj_errors j) eqn:He.
  { destruct H as [_ [= ->]]. discriminate Hu. }
  destruct (crj_userErrors j) as [[|u us]|] eqn:Hue.
  - destruct H as [_ [= ->]]. exists j. cbn [fst] in Hu.
    destruct (crj_customer_id j); [discriminate Hu|]. rewrite Hue. simpl. auto.
  - destruct (includes (ue_message u) "Email has already been taken").
    + destruct (get formData "userEmail") as [userEmail|];
        [|destruct H as [_ E]; discriminate E].
      apply updateFoundCustomer_run in H.
      destruct H as (searches & _ &
                     [(_ & [= ->] & _)|[(_ & m & E & _)|(found & [e|uj] & _ & _ & _ & _ & E)]]);
        try discriminate.
      unfold updateOutcome in E.
      destruct (cuj_userErrors uj) as [[|? ?]|]; injection E as ->; discriminate Hu.
    + destruct H as [_ [= ->]]. discriminate Hu.
  - destruct H as [_ [= ->]]. exists j. cbn [fst] in Hu.
    destruct (crj_customer_id j); [discriminate Hu|]. rewrite Hue. simpl. auto.
Qed.

(** A result-shaped answer aggregates the company id that the company
    stage of the run obtained and what its customer stage yielded. *)
Lemma result_of_run request c l r :
  ran (handler World graphql stamp request) c l ->
  respond c = JsonResult r ->
  exists ec ecomp cid customer,
    ran (resolveCompany World graphql (req_formData request)) (Normal ecomp)
        (callsOf isCompaniesQuery l) /\
    ran (createOrReuseCompany World graphql stamp (req_formData request) ec ecomp)
        (Normal cid) (callsOf isCreateCompany l) /\
    (exists l7, ran (createOrReuseCustomer World graphql (req_formData request) ec)
                    (Normal customer) l7 /\
                forall e, In e l7 -> In e l) /\
    r = aggregate cid (fst customer) (snd customer).
Proof.
  intros H Hr.
  destruct c as [h|m|h]; cbn [respond] in Hr;
    [ | discriminate Hr
      | subst h; exfalso;
        destruct (ran_returnsOnly _ _ _ _ (handler_returns graphql stamp request) H)
          as [[E|E]|(? & ? & E & _)]; discriminate E ].
  subst h. handler_inv H.
  all: match goal with
       | H2 : ran (resolveCompany _ _ _) (Normal ?ecomp) _,
         H3 : ran (createOrReuseCompany _ _ _ _ ?ec _) (Normal ?cid) _,
         H7 : ran (createOrReuseCustomer _ _ _ _) (Normal ?customer) ?l7 |- _ =>
           exists ec, ecomp, cid, customer;
           split; [|split; [|split; [exists l7; split; [exact H7|]|reflexivity]]]
       end.
  all: try (stage_calls; assumption).
  all: intros e He; repeat (apply in_or_app; first [left; exact He | right]); exact He.
Qed.

End ResultOfRun.

Section CompanyOfRun.
Context {js : JsString}.
Context {World : Type}.
Variable graphql : Client World.
Variable stamp : string.

(** The company calls of a run are the calls of its company stages, and
    a result-shaped answer carries the company id they obtained. *)
Lemma company_stages_of_run request c l :
  ran (handler World graphql stamp request) c l ->
  (callsOf isCompaniesQuery l = [] /\ callsOf isCreateCompany l = [] /\
   callsOf isMetafieldsSet l = [] /\ forall r, respond c <> JsonResult r) \/
  exists c2,
    ran (resolveCompany World graphql (req_formData request)) c2
        (callsOf isCompaniesQuery l) /\
    (((forall ecomp, c2 <> Normal ecomp) /\ callsOf isCreateCompany l = [] /\
      callsOf isMetafieldsSet l = [] /\ forall r, respond c <> JsonResult r) \/
     exists ec ecomp cc,
       c2 = Normal ecomp /\
       ran (createOrReuseCompany World graphql stamp (req_formData request) ec ecomp) cc
           (callsOf isCreateCompany l) /\
       (forall cid, cc = Normal cid ->
          ran (setCompanyEmailMetafield World graphql (req_formData request) ecomp cid)
              (Normal tt) (callsOf isMetafieldsSet l) /\
          forall r, respond c = JsonResult r -> companyId r = cid) /\
       ((forall cid, cc <> Normal cid) ->
        callsOf isMetafieldsSet l = [] /\ forall r, respond c <> JsonResult r)).
Proof.
  intros H.
  assert (Hret : forall h r, c = Return h -> h <> JsonResult r).
  { intros h r -> ->.
    destruct (ran_returnsOnly _ _ _ _ (handler_returns graphql stamp request) H)
      as [[E|E]|(? & ? & E & _)]; discriminate E. }
  handler_inv H.
  all: stage_calls.
  all: try solve [ left; repeat split; try reflexivity;
                   intros r; cbn [respond];
                   first [discriminate | eapply Hret; reflexivity] ].
  all: right.
  all: match goal with
       | H2 : ran (resolveCompany _ _ _) ?c2 _ |- _ => exists c2; split; [exact H2|]
       end.
  all: try solve [ left; repeat split; try reflexivity; try discriminate;
                   intros r; cbn [respond];
                   first [discriminate | eapply Hret; reflexivity] ].
  all: right.
  all: match goal with
       | H2 : ran (resolveCompany _ _ _) (Normal ?ecomp) _,
         H3 : ran (createOrReuseCompany _ _ _ _ ?ec _) ?cc _ |- _ =>
           exists ec, ecomp, cc; split; [reflexivity|]; split; [exact H3|]
       end.
  all: split;
    [ intros cid E;
      first [ discriminate E
            | injection E as <-;
              split;
              [ assumption
              | intros r; cbn [respond]; intros Hr;
                first [ discriminate Hr
                      | exfalso; eapply Hret; [reflexivity|exact Hr]
                      | injection Hr as <-;
                        exact (proj1 (proj2 (aggregate_fields _ _ _))) ] ] ]
    | intros Hn; first [ exfalso; eapply Hn; reflexivity
                       | split; [reflexivity|];
                         intros r; cbn [respond];
                         first [discriminate | eapply Hret; reflexivity] ] ].
Qed.

End CompanyOfRun.

(** ** The earlier revision of the route *)

Section EarlierRevision.
Context {js : JsString}.
Context {World : Type}.
Variable graphql : Client World.
Variable stamp : string.

(** The customer updates of the earlier revision carry no [tags], and the
    phone of the form under the same rule as in the newest revision. *)
Lemma AppsProxy_handler_updates request :
  emits (fun r => forall input, r = UpdateCustomer input ->
                    ci_tags input = None /\
                    ci_phone input = phoneField (get (req_formData request) "phone"))
        (AppsProxy.handler World graphql stamp request).
Proof.
  unfold AppsProxy.handler, AppsProxy.workflow, AppsProxy.updateExistingCustomer,
    AppsProxy.createCompany, AppsProxy.createOrReuseCustomer,
    AppsProxy.updateFoundCustomer, AppsProxy.linkCustomer,
    resolveIdentity, assignAddress, setTaxId, fallbackSearch.
  apply emits_bind; [apply silent_emits, loadAdmin_silent|]. intros _.
  repeat first
    [ apply emits_ret | apply emits_throw | apply emits_returnJson
    | apply emits_lift | apply emits_tryCatch | apply emits_when
    | apply emits_call;
      intros input E; first [discriminate E | injection E as <-; split; reflexivity]
    | apply emits_bind; [| intros ?]
    | match goal with
      | |- emits _ (match ?x with _ => _ end) => destruct x
      end
    | progress cbv zeta ].
Qed.

Lemma AppsProxy_updates request w input reply :
  In (UpdateCustomer input, reply) (snd (AppsProxy.action World graphql stamp request w)) ->
  ci_tags input = None /\
  ci_phone input = phoneField (get (req_formData request) "phone").
Proof.
  intros H. exact (AppsProxy_handler_updates request w _ H input eq_refl).
Qed.

End EarlierRevision.

Section EarlierTaxReply.
Context {js : JsString}.
Context {World : Type}.
Variables g1 g2 : Client World.
Variable stamp : string.
Hypothesis same_reply : forall r w, isTaxUpdate r = false -> g1 r w = g2 r w.
Hypothesis same_state : forall r w, snd (g1 r w) = snd (g2 r w).

Lemma alike_AppsProxy_handler request :
  alike (AppsProxy.handler World g1 stamp request) (AppsProxy.handler World g2 stamp request).
Proof.
  unfold AppsProxy.handler, AppsProxy.workflow, AppsProxy.updateExistingCustomer,
    AppsProxy.createCompany, AppsProxy.createOrReuseCustomer,
    AppsProxy.updateFoundCustomer, AppsProxy.linkCustomer,
    resolveIdentity, assignAddress, fallbackSearch.
  alike_tac.
Qed.

End EarlierTaxReply.

(** ** The company the resolver finds *)

Lemma callsOf_nil_none f (l : list Event) e :
  callsOf f l = [] -> In e l -> f (fst e) = false.
Proof.
  intros Hn He. destruct (f (fst e)) eqn:E; [|reflexivity].
  pose proof (callsOf_In f l e He E) as F. rewrite Hn in F. destruct F.
Qed.

Lemma findExistingCompany_first {js : JsString} companyEmail companies reused :
  findExistingCompany companyEmail companies = Some reused ->
  exists before after,
    companies = (before ++ reused :: after)%list /\
    (forall c, In c before -> emailMetafield companyEmail c = None) /\
    emailMetafield companyEmail reused <> None.
Proof.
  intros H. apply find_firstWith in H.
  destruct H as (before & after & -> & Hb & Hx).
  exists before, after. split; [reflexivity|]. split.
  - intros c Hc. specialize (Hb c Hc). cbv beta in Hb.
    destruct (emailMetafield companyEmail c); [discriminate Hb|reflexivity].
  - cbv beta in Hx. destruct (emailMetafield companyEmail reused); [discriminate|discriminate Hx].
Qed.

(** ** The customer updates of a run *)

Lemma located_app_l x a b : located x a -> located x (a ++ b).
Proof.
  intros (q & edges & Hs & Hin & Hx). exists q, edges.
  repeat split; auto. apply in_or_app. auto.
Qed.

Lemma located_sub x (a l : list Event) :
  located x a -> (forall e, In e a -> In e l) -> located x l.
Proof.
  intros (q & edges & Hs & Hin & Hx) Hsub. exists q, edges. repeat split; auto.
Qed.

Lemma mergeTags_wholesaleAdded (tags : option (list string)) :
  wholesaleAdded tags (mergeTags tags).
Proof.
  destruct (mergeTags_union tags) as (H1 & H2 & H3). repeat split; auto; apply H1.
Qed.

Section Updates.
Context {js : JsString}.
Context {World : Type}.
Variable graphql : Client World.
Variable stamp : string.

(** A customer update of the customer stage is the fallback update of a
    customer that a search returned. *)
Lemma createOrReuseCustomer_update formData ec c7 l7 input reply :
  ran (createOrReuseCustomer World graphql formData ec) c7 l7 ->
  In (UpdateCustomer input, reply) l7 ->
  exists found, located found l7 /\ input = fallbackCustomerInput formData found.
Proof.
  intros H Hin. apply createOrReuseCustomer_ran in H.
  destruct H as [(existing & _ & -> & _)|(_ & creply & rest & -> & H)]; [destruct Hin|].
  destruct Hin as [Hin|Hin]; [discriminate Hin|].
  destruct creply as [e|j]; [destruct H as [-> _]; destruct Hin|].
  destruct (crj_errors j); [destruct H as [-> _]; destruct Hin|].
  destruct (crj_userErrors j) as [[|u us]|]; try (destruct H as [-> _]; destruct Hin).
  destruct (includes (ue_message u) "Email has already been taken");
    [|destruct H as [-> _]; destruct Hin].
  destruct (get formData "userEmail") as [userEmail|];
    [|destruct H as [-> _]; destruct Hin].
  apply updateFoundCustomer_run in H.
  destruct H as (searches & Ht &
                 [(-> & _)|[(-> & _)|(found & ureply & -> & Hloc & _)]]).
  - destruct (threeTier_queries _ _ _ Ht Hin) as (_ & _ & F). discriminate F.
  - destruct (threeTier_queries _ _ _ Ht Hin) as (_ & _ & F). discriminate F.
  - apply in_app_or in Hin. destruct Hin as [Hin|[Hin|[]]].
    + destruct (threeTier_queries _ _ _ Ht Hin) as (_ & _ & F). discriminate F.
    + injection Hin as <- _. exists found. split; [|reflexivity].
      apply (located_app found [_]). apply located_app_l. exact Hloc.
Qed.

(** Every customer update of a run is the update of the customer the
    identity query returned first, or the fallback update of a customer a
    search returned. *)
Lemma update_events request c l input reply :
  ran (handler World graphql stamp request) c l ->
  In (UpdateCustomer input, reply) l ->
  (exists existing, identified existing l /\
                    input = customerInput (req_formData request) existing) \/
  (exists found, located found l /\
                 input = fallbackCustomerInput (req_formData request) found).
Proof.
  intros H Hin. handler_inv H.
  all: in_log Hin.
  all: try match goal with
           | H : ran _ _ ?l, Hin : In _ ?l |- _ =>
               let F := fresh "F" in
               stage_ops H Hin F; discriminate F
           end.
  all: try match goal with
           | H7 : ran (createOrReuseCustomer _ _ _ _) _ ?l7, Hin : In _ ?l7 |- _ =>
               right;
               destruct (createOrReuseCustomer_update _ _ _ _ _ _ H7 Hin)
                 as (found & Hloc & ->);
               exists found; split; [|reflexivity];
               apply (located_sub _ _ _ Hloc);
               let e := fresh "e" in
               let He := fresh "He" in
               intros e He;
               repeat (apply in_or_app; first [left; exact He | right]); exact He
           end.
  all: left.
  all: match goal with
       | H0 : ran (resolveIdentity _ _ _) (Normal ?ec) ?l0,
         H1 : ran (updateExistingCustomer _ _ _ ?ec) _ ?l1 |- _ =>
           apply updateExistingCustomer_ran in H1;
           destruct H1 as [(_ & E & _)|(existing & ureply & E1 & E2 & _)];
           [ rewrite E in Hin; destruct Hin |];
           apply resolveIdentity_ran in H0;
           destruct H0 as [(_ & _ & E)|(userEmail & qreply & _ & E0 & E)];
           [ discriminate E |];
           destruct qreply as [e|[[[|first others]|]]];
           cbn [firstNode customers_edges] in E; try discriminate E;
           injection E as E; rewrite E1 in E; try discriminate E;
           injection E as <-; subst l0 l1
       end.
  all: destruct Hin as [Hin|[]]; injection Hin as <- _.
  all: exists existing; split; [|reflexivity].
  all: eexists _, _; simpl; left; reflexivity.
Qed.

End Updates.

(** ** A creation that yields no customer *)

Section CreationOutcome.
Context {js : JsString}.
Context {World : Type}.
Variable graphql : Client World.
Variable stamp : string.

(** A creation that yields no customer id ends the calls of the run, and
    the route answers with the result shape. *)
Lemma creation_without_customer request w input j error :
  In (CreateCustomer input, Json (RCustomerCreate j))
     (snd (action World graphql stamp request w)) ->
  (forall c7 rest,
     ran (createOrReuseCustomer World graphql (req_formData request) None) c7
         ((CreateCustomer (newCustomerInput (req_formData request)),
           Json (RCustomerCreate j)) :: rest) ->
     rest = [] /\ c7 = Normal (Null, Some error)) ->
  (exists before,
     snd (action World graphql stamp request w) =
       (before ++ [(CreateCustomer input, Json (RCustomerCreate j))])%list /\
     forall ev, In ev before -> isSearch (fst ev) = false /\
                                isUpdateCustomer (fst ev) = false) /\
  exists r, fst (action World graphql stamp request w) = JsonResult r /\
            customerId r = Null /\ customerError r = Some error /\
            success r = truthy (companyId r).
Proof.
  intros Hev Hstage.
  destruct (action_ran graphql stamp request w) as (c & Hran & Hans).
  rewrite Hans. clear Hans.
  set (l := snd (action World graphql stamp request w)) in *. clearbody l.
  destruct (creation_run _ _ _ _ _ _ _ Hran Hev)
    as (pre & rest & link & ecomp & cid & c7 & c8 & reply' & -> & _ & -> & Hrep &
        Hpre & H7 & _ & H8 & Hn & ->).
  destruct reply' as [m|j']; [discriminate Hrep|]. injection Hrep as <-.
  destruct (Hstage _ _ H7) as [-> ->].
  specialize (H8 _ eq_refl). cbn [fst] in H8.
  apply linkCustomer_new_ran in H8.
  destruct H8 as [[-> ->]|(? & ? & ? & ? & _ & _ & E & _)]; [|discriminate E].
  split.
  - exists pre. split; [reflexivity|].
    intros ev Hin. destruct (preEvent_no_update _ _ _ (Hpre _ Hin)) as (_ & ? & ?). auto.
  - cbn [respond workflowEnd fst snd]. eexists. split; [reflexivity|].
    destruct (aggregate_fields cid Null (Some error)) as (H0 & H1 & H2 & H3).
    cbv zeta in *. rewrite H0, H1, H2, H3. auto.
Qed.

End CreationOutcome.

(** ** The choice of the role *)

(** The role choice follows the preference order, and within a class of
    names takes the first role of the reply. *)
Lemma roleToAssign_first {js : JsString} (rolesData : RolesJson) :
  (forall defaultRole, rj_defaultRole rolesData = Some defaultRole ->
                       roleToAssign rolesData = Some defaultRole) /\
  (rj_defaultRole rolesData = None ->
   forall roles, rj_contactRoles rolesData = Some roles ->
     (forall before buyer after,
        roles = (before ++ buyer :: after)%list ->
        (forall role, In role before ->
                      includes (toLowerCase (role_name role)) "buyer" = false) ->
        includes (toLowerCase (role_name buyer)) "buyer" = true ->
        roleToAssign rolesData = Some buyer) /\
     ((forall role, In role roles ->
                    includes (toLowerCase (role_name role)) "buyer" = false) ->
      (forall before admin after,
         roles = (before ++ admin :: after)%list ->
         (forall role, In role before ->
                       includes (toLowerCase (role_name role)) "admin" = false) ->
         includes (toLowerCase (role_name admin)) "admin" = true ->
         roleToAssign rolesData = Some admin) /\
      ((forall role, In role roles ->
                     includes (toLowerCase (role_name role)) "admin" = false) ->
       roleToAssign rolesData = hd_error roles))) /\
  (rj_defaultRole rolesData = None -> rj_contactRoles rolesData = None ->
   roleToAssign rolesData = None).
Proof.
  unfold roleToAssign. split; [intros d ->; reflexivity|]. split.
  - intros -> roles ->.
    assert (Hnone : forall (f : Role -> bool),
               (forall role, In role roles -> f role = false) -> find f roles = None).
    { intros f Hf. destruct (find f roles) as [r|] eqn:E; [|reflexivity].
      apply find_some in E. destruct E as [E1 E2]. rewrite (Hf _ E1) in E2.
      discriminate. }
    assert (Hfirst : forall (f : Role -> bool) before x after,
               roles = (before ++ x :: after)%list ->
               (forall role, In role before -> f role = false) -> f x = true ->
               find f roles = Some x).
    { intros f before x after E Hb Hx. apply firstWith_find.
      exists before, after. auto. }
    split.
    + intros before buyer after E Hb Hx.
      rewrite (Hfirst isBuyer before buyer after E Hb Hx).
      destruct roles; [destruct before; discriminate E|reflexivity].
    + intros Hnb. rewrite (Hnone isBuyer Hnb). split.
      * intros before admin after E Hb Hx.
        rewrite (Hfirst isAdmin before admin after E Hb Hx).
        destruct roles; [destruct before; discriminate E|reflexivity].
      * intros Hna. rewrite (Hnone isAdmin Hna). destruct roles; reflexivity.
  - intros -> ->. reflexivity.
Qed.

(** * The workflow, statement by statement *)

(** ** The shape of the answer *)



(** ** Company reuse *)


(** ** Merging into an existing customer *)

(** When the identity query answers with a customer, that customer is
    updated, and the run makes no other customer update. *)
Lemma existing_customer_update {js : JsString} :
  forall World (graphql : Client World) stamp request w q c rest,
    In (GetCustomerByEmail q,
        Json (RCustomers {| customers_edges := Some (c :: rest) |}))
       (snd (action World graphql stamp request w)) ->
    (exists reply,
       In (UpdateCustomer (customerInput (req_formData request) c), reply)
          (snd (action World graphql stamp request w))) /\
    (forall input reply,
       In (UpdateCustomer input, reply) (snd (action World graphql stamp request w)) ->
       input = customerInput (req_formData request) c).
Proof.
  intros World graphql stamp request w q c rest Hev.
  destruct (action_ran graphql stamp request w) as (co & Hran & _).
  set (l := snd (action World graphql stamp request w)) in *. clearbody l.
  unfold handler, workflow in Hran. ran_inv.
  all: stage_inv.
  all: stage_emits.
  all: cbn [app] in *.
  all: in_log Hev.
  all: try wrong_stage Hev.
  all: cbn [mapReply] in Hev; injection Hev as ? Hev; subst.
  all: cbn [firstNode customers_edges] in *.
  all: stage_inv.
  all: split;
    [ eexists; simpl; eauto
    | intros input reply He; in_log He;
      try wrong_stage He;
      try (injection He as ? ?; subst; reflexivity) ].
Qed.

(** C3, as amended. In the newest revision of the route, [tags] in every
    customer update of a run is the union of the prior tags of the
    updated customer, as the query returned them, and [wholesale]: the
    same elements, the prior tags kept in place as a prefix, and
    [wholesale] occurring once when it was absent and as often as before
    when it was present.  The updated customer is the first customer of
    the reply to the identity query, and then it is the only customer
    the run updates; or it is a customer that a search of the
    email-conflict fallback returned.  In the earlier revision
    ([app/routes/apps.proxy.jsx]) no customer update carries [tags]. *)
Theorem C3_tags_are_prior_tags_and_wholesale {js : JsString} :
  forall World (graphql : Client World) stamp request w,
    let l := snd (action World graphql stamp request w) in
    (forall q c rest,
       In (GetCustomerByEmail q,
           Json (RCustomers {| customers_edges := Some (c :: rest) |})) l ->
       exists tags,
         (exists input reply,
            In (UpdateCustomer input, reply) l /\ ci_id input = Some (cu_id c)) /\
         (forall input reply,
            In (UpdateCustomer input, reply) l ->
            ci_id input = Some (cu_id c) /\ ci_tags input = Some tags) /\
         wholesaleAdded (cu_tags c) tags) /\
    (forall input reply,
       In (UpdateCustomer input, reply) l ->
       exists c tags,
         (identified c l \/ located c l) /\
         ci_id input = Some (cu_id c) /\
         ci_tags input = Some tags /\
         wholesaleAdded (cu_tags c) tags) /\
    (forall input reply,
       In (UpdateCustomer input, reply)
          (snd (AppsProxy.action World graphql stamp request w)) ->
       ci_tags input = None).
Proof.
  intros World graphql stamp request w l. split; [|split].
  - intros q c rest Hev.
    destruct (existing_customer_update _ _ _ _ _ _ _ _ Hev) as [[reply Hin] Hall].
    exists (mergeTags (cu_tags c)). split; [|split].
    + exists (customerInput (req_formData request) c), reply. auto.
    + intros input r Hi. rewrite (Hall _ _ Hi). split; reflexivity.
    + apply mergeTags_wholesaleAdded.
  - intros input reply Hin.
    destruct (action_ran graphql stamp request w) as (co & Hran & _).
    fold l in Hran. clearbody l.
    destruct (update_events graphql stamp request co l input reply Hran Hin)
      as [(c & Hc & ->)|(c & Hc & ->)];
      exists c, (mergeTags (cu_tags c));
      (split; [auto|]); (split; [reflexivity|]); (split; [reflexivity|]);
      apply mergeTags_wholesaleAdded.
  - intros input reply Hin.
    exact (proj1 (AppsProxy_updates graphql stamp request w input reply Hin)).
Qed.


(** ** The email-conflict fallback *)



(** ** Linking an existing customer *)


(** ** The tax mutation *)


(** * Runs on ASCII text

    The scenarios below are written in ASCII, where [toLowerCase] and
    [trim] are the functions of [AsciiText]; they are run on the scripted
    client. *)

#[export] Instance asciiText : JsString :=
  {| toLowerCase := AsciiText.toLowerCase;
     trim := AsciiText.trim;
     trim_empty := eq_refl |}.

Example toLowerCase_ex : toLowerCase "Jo@ACME.Test" = "jo@acme.test".
Proof. reflexivity. Qed.

Example trim_ex : trim "  a b  " = "a b".
Proof. reflexivity. Qed.

(** Scenario: the customer exists and is updated, then [companyCreate]
    rejects the company. *)
Definition existingJo : Customer :=
  customer "gid://shopify/Customer/1" "jo@acme.test" ["vip"].

(** A customer whose email only contains the one of the form below. *)
Definition otherCustomer : Customer :=
  customer "gid://shopify/Customer/2" "jo@acme.test.au" ["retail"].

Definition C2_form : FormData :=
  [ ("companyName", "Acme"); ("firstName", "Jo"); ("lastName", "Doe");
    ("userEmail", "jo@acme.test") ].

Definition C9_run : HttpResponse * list Event :=
  action Script scripted "1700000000000" (installed submission)
    [ customersFound [existingJo]; customerUpdated;
      companyRejected "Name has already been taken" ].



(** A company is created and the customer is rejected for its phone. *)
Definition C7_run : HttpResponse * list Event :=
  action Script scripted "1700000000000"
    (installed [ ("companyName", "Acme"); ("firstName", "Jo"); ("lastName", "Doe");
                 ("userEmail", "jo@acme.test"); ("phone", "12") ])
    [ customersFound []; companyCreated "gid://shopify/Company/7";
      customerRejected ["Phone is invalid"] ].

Definition C7_result : Result :=
  {| success := true; companyId := Some "gid://shopify/Company/7";
     customerId := Null;
     message := "Company created successfully! Note: Phone is invalid";
     customerError := Some "Phone is invalid" |}.


(** Scenario: the reply to [companyCreate] reports no error and carries
    no company. *)
Definition companyMissing : Reply Response :=
  Json (RCompanyCreate {| ccj_errors := None; ccj_userErrors := Some [];
                          ccj_company_id := None |}).

Definition C7_missing_run : HttpResponse * list Event :=
  action Script scripted "1700000000000" (installed C2_form)
    [ customersFound []; companyMissing; customerCreated "gid://shopify/Customer/5" ].

Definition C7_missing_result : Result :=
  {| success := false; companyId := None;
     customerId := Value "gid://shopify/Customer/5";
     message := "Failed to create company.";
     customerError := None |}.


(** Scenario: the submitted company email and the stored metafield value
    are the same string, with a leading space. *)
Definition paddedEmail : string := " ops@acme.test".

Definition C1_padded_run : HttpResponse * list Event :=
  action Script scripted "1700000000000"
    (installed [ ("companyName", "Acme"); ("firstName", "Jo"); ("lastName", "Doe");
                 ("userEmail", "jo@acme.test"); ("companyEmail", paddedEmail) ])
    [ customersFound [];
      companiesFound [companyWithEmail "gid://shopify/Company/3" paddedEmail];
      companyCreated "gid://shopify/Company/9"; accepted;
      customerCreated "gid://shopify/Customer/5" ].


(** Scenario: two companies are stored under the submitted email, in
    another case. *)
Definition C1_request : HttpRequest :=
  installed [ ("companyName", "Acme"); ("firstName", "Jo"); ("lastName", "Doe");
              ("userEmail", "jo@acme.test"); ("companyEmail", "Ops@Acme.test ") ].

Definition C1_companies : list Company :=
  [ companyWithEmail "gid://shopify/Company/3" "ops@acme.test";
    companyWithEmail "gid://shopify/Company/4" "OPS@acme.test" ].

Definition C1_script : Script :=
  [ customersFound []; companiesFound C1_companies;
    customerCreated "gid://shopify/Customer/5";
    contactAssigned "gid://shopify/CompanyContact/8" ].

Definition C1_run : HttpResponse * list Event :=
  action Script scripted "1700000000000" C1_request C1_script.


(** Scenario: the email-filtered query answers with a customer whose
    email only contains the submitted one. *)
Definition C2_script : Script :=
  [ customersFound [otherCustomer]; customerUpdated;
    companyCreated "gid://shopify/Company/7";
    contactAssigned "gid://shopify/CompanyContact/8"; accepted;
    locationsFound [] ].

(** C2. The identity resolver takes the first node of the reply as the
    existing customer without comparing its email with the submitted one:
    here the emails differ, and the handler still updates that customer,
    creates the company without an inline contact and links the customer
    to it.  The earlier revision of the route does the same. *)
Theorem C2_first_result_is_trusted :
  emailMatches "jo@acme.test" otherCustomer = Some false /\
  (let run := action Script scripted "1700000000000" (installed C2_form) C2_script in
   requests (snd run) =
     [ GetCustomerByEmail (emailQuery "jo@acme.test");
       UpdateCustomer (customerInput C2_form otherCustomer);
       CreateCompany (companyInput C2_form "1700000000000" (Some otherCustomer));
       AssignCustomerAsContact "gid://shopify/Company/7" "gid://shopify/Customer/2";
       AssignMainContact "gid://shopify/Company/7" "gid://shopify/CompanyContact/8";
       GetLocationRoles "gid://shopify/Company/7" ] /\
   fst run =
     JsonResult {| success := true; companyId := Some "gid://shopify/Company/7";
                   customerId := Value "gid://shopify/Customer/2";
                   message := "Company and customer created successfully!";
                   customerError := None |}) /\
  (let run := AppsProxy.action Script scripted "1700000000000" (installed C2_form)
                [ customersFound [otherCustomer]; customerUpdated;
                  companyCreated "gid://shopify/Company/7";
                  contactAssigned "gid://shopify/CompanyContact/8"; accepted ] in
   In (UpdateCustomer (AppsProxy.customerInput C2_form otherCustomer), customerUpdated)
      (snd run) /\
   fst run =
     JsonResult {| success := true; companyId := Some "gid://shopify/Company/7";
                   customerId := Value "gid://shopify/Customer/2";
                   message := "Company and customer created successfully!";
                   customerError := None |}).
Proof.
  split; [reflexivity|]. split; [split; reflexivity|].
  split; [simpl; auto|reflexivity].
Qed.

(** Scenario: the customer exists with the tag [vip]; the form carries a
    phone number with white space around it. *)
Definition mergeForm : FormData :=
  [ ("companyName", "Acme"); ("firstName", "Jo"); ("lastName", "Doe");
    ("userEmail", "jo@acme.test"); ("phone", " 555 0100 ") ].

Definition mergeScript : Script :=
  [ customersFound [existingJo]; customerUpdated;
    companyCreated "gid://shopify/Company/7";
    contactAssigned "gid://shopify/CompanyContact/8"; accepted;
    locationsFound [] ].

Definition mergeRun : HttpResponse * list Event :=
  action Script scripted "1700000000000" (installed mergeForm) mergeScript.

Lemma mergeRun_found :
  In (GetCustomerByEmail (emailQuery "jo@acme.test"),
      Json (RCustomers {| customers_edges := Some [existingJo] |}))
     (snd mergeRun).
Proof. simpl. auto. Qed.

Lemma C3_witness :
  exists tags,
    (forall input reply, In (UpdateCustomer input, reply) (snd mergeRun) ->
                         ci_tags input = Some tags) /\
    (forall t, In t tags <-> In t ["vip"] \/ t = "wholesale").
Proof.
  destruct (proj1 (C3_tags_are_prior_tags_and_wholesale Script scripted "1700000000000"
                     (installed mergeForm) mergeScript)
              _ existingJo [] mergeRun_found)
    as (tags & _ & H1 & H2 & _).
  exists tags. split; [|exact H2].
  intros input reply Hin. exact (proj2 (H1 input reply Hin)).
Defined.

(** The same scenario on the earlier revision of the route. *)
Definition C3_earlier_run : HttpResponse * list Event :=
  AppsProxy.action Script scripted "1700000000000" (installed mergeForm)
    [ customersFound [existingJo]; customerUpdated;
      companyCreated "gid://shopify/Company/7";
      contactAssigned "gid://shopify/CompanyContact/8"; accepted ].

(** C3, as stated, fails on the earlier revision: the identity query
    answers with a customer that has the tag [vip], the customer is
    updated, and the update carries no [tags] at all, so [wholesale] is
    not added. *)
Lemma C3_counterexample :
  In (GetCustomerByEmail (emailQuery "jo@acme.test"), customersFound [existingJo])
     (snd C3_earlier_run) /\
  cu_tags existingJo = Some ["vip"] /\
  (exists input,
     In (UpdateCustomer input, customerUpdated) (snd C3_earlier_run) /\
     ci_id input = Some (cu_id existingJo) /\
     ci_tags input = None) /\
  Forall (fun ev => forall input, fst ev = UpdateCustomer input -> ci_tags input = None)
         (snd C3_earlier_run).
Proof.
  split; [simpl; auto|]. split; [reflexivity|]. split.
  - eexists. split; [simpl; right; left; reflexivity|]. split; reflexivity.
  - repeat constructor; intros input E; try discriminate E.
    injection E as <-. reflexivity.
Qed.


(** Scenario: the creation is refused because the email is taken, and the
    exact search answers with a customer whose email only starts with the
    submitted one. *)
Definition C10_script : Script :=
  [ customersFound []; companyCreated "gid://shopify/Company/7";
    customerRejected ["Email has already been taken"];
    customersFound [otherCustomer] ].

Definition C10_run : HttpResponse * list Event :=
  action Script scripted "1700000000000" (installed C2_form) C10_script.


(** Scenario: the creation is refused because the email is taken, and the
    exact search answers with a customer that has no email. *)
Definition noEmailCustomer : Customer :=
  {| cu_id := "gid://shopify/Customer/3"; cu_email := None;
     cu_firstName := Some "Jo"; cu_lastName := Some "Doe";
     cu_phone := Some "+15550100"; cu_tags := Some [] |}.

Definition C10_no_email_run : HttpResponse * list Event :=
  action Script scripted "1700000000000" (installed C2_form)
    [ customersFound []; companyCreated "gid://shopify/Company/7";
      customerRejected ["Email has already been taken"];
      customersFound [noEmailCustomer] ].


(** Scenario C of the specification: the creation is refused because the
    email is taken; the two queries find nothing and the scan of recent
    customers returns the customer, stored in another case. *)
Definition storedJo : Customer :=
  customer "gid://shopify/Customer/1" "Jo@Acme.test" ["vip"].

Definition emailTaken : CustomerCreateJson :=
  {| crj_errors := None;
     crj_userErrors := Some [ {| ue_field := ["input"];
                                 ue_message := "Email has already been taken" |} ];
     crj_customer_id := None |}.

Definition C5_script : Script :=
  [ customersFound []; companyCreated "gid://shopify/Company/7";
    Json (RCustomerCreate emailTaken);
    customersFound []; customersFound []; customersFound [otherCustomer; storedJo];
    customerUpdated ].

Definition C5_run : HttpResponse * list Event :=
  action Script scripted "1700000000000" (installed C2_form) C5_script.


(** The run of scenario C. *)
Example C5_run_result :
  requests (snd C5_run) =
    [ GetCustomerByEmail (emailQuery "jo@acme.test");
      CreateCompany (companyInput C2_form "1700000000000" None);
      CreateCustomer (newCustomerInput C2_form);
      SearchCustomerByEmail "jo@acme.test";
      SearchCustomerByEmailPrefix "email:jo@acme.test";
      GetAllRecentCustomers;
      UpdateCustomer (customerInput C2_form storedJo) ] /\
  fst C5_run =
    JsonResult {| success := true; companyId := Some "gid://shopify/Company/7";
                  customerId := Value "gid://shopify/Customer/1";
                  message := "Company and customer created successfully!";
                  customerError := None |}.
Proof. split; reflexivity. Qed.

(** Scenario: the creation is refused with two user errors, the second of
    which says the email is taken. *)
Definition C5_reasons : list string :=
  ["Phone is invalid"; "Email has already been taken"].

Definition C5_other_first : Reply Response := customerRejected C5_reasons.

Definition C5_other_first_run : HttpResponse * list Event :=
  action Script scripted "1700000000000" (installed C2_form)
    [ customersFound []; companyCreated "gid://shopify/Company/7"; C5_other_first ].


(** Scenario B of the specification: the customer exists, the company is
    new; the company has no default role, and an admin role listed
    before a buyer role. *)
Definition adminRole : Role :=
  {| role_id := "gid://shopify/CompanyContactRole/1"; role_name := "Location admin" |}.

Definition buyerRole : Role :=
  {| role_id := "gid://shopify/CompanyContactRole/2"; role_name := "Ordering Buyer" |}.

Definition C6_script : Script :=
  [ customersFound [existingJo]; customerUpdated;
    companyCreated "gid://shopify/Company/7";
    contactAssigned "gid://shopify/CompanyContact/8"; accepted;
    locationsFound [mainLocation]; rolesFound None [adminRole; buyerRole]; accepted ].

Definition C6_run : HttpResponse * list Event :=
  action Script scripted "1700000000000" (installed C2_form) C6_script.


(** The run of scenario B: the calls in order, the buyer role preferred to
    the admin role, and the answer. *)
Example C6_run_result :
  requests (snd C6_run) =
    [ GetCustomerByEmail (emailQuery "jo@acme.test");
      UpdateCustomer (customerInput C2_form existingJo);
      CreateCompany (companyInput C2_form "1700000000000" (Some existingJo));
      AssignCustomerAsContact "gid://shopify/Company/7" "gid://shopify/Customer/1";
      AssignMainContact "gid://shopify/Company/7" "gid://shopify/CompanyContact/8";
      GetLocationRoles "gid://shopify/Company/7";
      GetCompanyRoles "gid://shopify/Company/7";
      AssignRole "gid://shopify/CompanyContact/8" (role_id buyerRole)
                 (loc_id mainLocation) ] /\
  fst C6_run =
    JsonResult {| success := true; companyId := Some "gid://shopify/Company/7";
                  customerId := Value "gid://shopify/Customer/1";
                  message := "Company and customer created successfully!";
                  customerError := None |}.
Proof. split; reflexivity. Qed.

(** Scenario: the company is created, then the contact assignment throws. *)
Definition C6_thrown_run : HttpResponse * list Event :=
  action Script scripted "1700000000000" (installed C2_form)
    [ customersFound [existingJo]; customerUpdated;
      companyCreated "gid://shopify/Company/7"; Threw "socket hang up" ].


(** Scenario D of the specification: a new company and a new customer,
    with an address and a tax id; the tax mutation is not available. *)
Definition taxForm : FormData :=
  (submission ++ [ ("taxId", " 12-3456789 ") ])%list.

Definition C8_run : HttpResponse * list Event :=
  action Script scripted "1700000000000" (installed taxForm)
    [ customersFound []; companyCreated "gid://shopify/Company/7";
      locationsFound [mainLocation]; accepted; taxMutationMissing;
      customerCreated "gid://shopify/Customer/5" ].

Example C8_run_result :
  In (SetCompanyLocationTaxId (loc_id mainLocation) "12-3456789", taxMutationMissing)
     (snd C8_run) /\
  Exists (fun error => mutationNotFound error = true)
    [ {| ge_message :=
           "Field 'companyLocationTaxSettingsUpdate' doesn't exist on type 'Mutation'" |} ] /\
  fst C8_run =
    JsonResult {| success := true; companyId := Some "gid://shopify/Company/7";
                  customerId := Value "gid://shopify/Customer/5";
                  message := "Company and customer created successfully!";
                  customerError := None |}.
Proof.
  split; [simpl; auto 6|]. split; [constructor; reflexivity|reflexivity].
Qed.

(** Scenario D again, with a customer that [customerCreate] rejects. *)
Definition C8_rejected_run : HttpResponse * list Event :=
  action Script scripted "1700000000000" (installed taxForm)
    [ customersFound []; companyCreated "gid://shopify/Company/7";
      locationsFound [mainLocation]; accepted; taxMutationMissing;
      customerRejected ["Phone is invalid"] ].


